(** * HSIE utterance structuring: a shallow embedding of
      [hsie/entrypoint/services/asr_result_structurer.py]

    The development follows the Python source function by function.
    - Python [str] values are lists of Unicode code points ([PyStr]).
    - Python [float] values are IEEE-754 binary64 numbers, modelled with the
      executable specification [SpecFloat] (precision 53, emax 1024).
    - pydantic models are records whose constructors run the declared
      [ge=0.0] / [ge=0] validators and may raise [ValidationError].
    - [uuid4()] is an external source of identifiers: the n-th call returns
      [uuid4 n], and the number of calls made so far is threaded as state.
    - the [while] loop of [structure] is a step function on the loop state
      (cursor [i], working list, running [index]) iterated with fuel
      [len(segments)], which is proved sufficient. *)

From Stdlib Require Import ZArith NArith List Bool Lia Sorted Permutation.
From Stdlib.Strings Require String Ascii Byte.
Import String.StringSyntax.
Delimit Scope string_scope with string.
From Corelib Require Import SpecFloat.
Import ListNotations.

(* ------------------------------------------------------------------ *)
(** ** Python strings *)

Module PyStr.

(** A character is a Unicode code point. *)
Definition char := N.
Definition str := list char.

(** [str.isspace] for one character: the code points CPython treats as
    whitespace (used by [str.strip()] called without argument). *)
Definition isspace (c : char) : bool :=
  (((9 <=? c) && (c <=? 13)) || ((28 <=? c) && (c <=? 32))
   || (c =? 133) || (c =? 160) || (c =? 5760)
   || ((8192 <=? c) && (c <=? 8202))
   || (c =? 8232) || (c =? 8233) || (c =? 8239) || (c =? 8287)
   || (c =? 12288))%N.

Fixpoint lstrip (s : str) : str :=
  match s with
  | [] => []
  | c :: s' => if isspace c then lstrip s' else s
  end.

Definition rstrip (s : str) : str := rev (lstrip (rev s)).

(** [s.strip()] *)
Definition strip (s : str) : str := rstrip (lstrip s).

(** [a == b] on strings *)
Fixpoint eqb (a b : str) : bool :=
  match a, b with
  | [], [] => true
  | x :: a', y :: b' => (x =? y)%N && eqb a' b'
  | _, _ => false
  end.

(** [s.endswith(suffix)]: the last [len(suffix)] characters of [s] are
    compared with [suffix]; a longer suffix never matches. *)
Definition endswith (s suffix : str) : bool :=
  (length suffix <=? length s)%nat
  && eqb (skipn (length s - length suffix) s) suffix.

(** [x in S] for a set of strings given by its elements. *)
Definition mem (x : str) (S : list str) : bool := existsb (eqb x) S.

(** The single ASCII space of the f-string [f"{a} {b}"]. *)
Definition space : char := 32%N.

(** [f"{a} {b}"] *)
Definition fmt_space (a b : str) : str := a ++ space :: b.

(** Reading of string literals: the source file is UTF-8, so a literal is
    decoded from its bytes into code points. *)
Fixpoint utf8_decode (bs : list N) : str :=
  match bs with
  | [] => []
  | b0 :: r =>
    if (b0 <? 128)%N then b0 :: utf8_decode r
    else if (b0 <? 224)%N then
      match r with
      | b1 :: r' => ((b0 - 192) * 64 + (b1 - 128))%N :: utf8_decode r'
      | _ => []
      end
    else if (b0 <? 240)%N then
      match r with
      | b1 :: b2 :: r' =>
        ((b0 - 224) * 4096 + (b1 - 128) * 64 + (b2 - 128))%N :: utf8_decode r'
      | _ => []
      end
    else
      match r with
      | b1 :: b2 :: b3 :: r' =>
        ((b0 - 240) * 262144 + (b1 - 128) * 4096 + (b2 - 128) * 64
         + (b3 - 128))%N :: utf8_decode r'
      | _ => []
      end
  end.

Definition lit (s : String.string) : str :=
  utf8_decode (map Byte.to_N (String.list_byte_of_string s)).

End PyStr.

Abbreviation str := PyStr.str.
Notation "'u' s" := (PyStr.lit s%string) (at level 1, s at level 0, only parsing).

(* ------------------------------------------------------------------ *)
(** ** Python floats (IEEE-754 binary64) *)

Module PyFloat.

Definition float := spec_float.

Definition prec : Z := 53.
Definition emax : Z := 1024.

(** [a - b] *)
Definition sub (a b : float) : float := SFsub prec emax a b.
(** [a < b], [a <= b] *)
Definition ltb (a b : float) : bool := SFltb a b.
Definition leb (a b : float) : bool := SFleb a b.

(** The float of an integer literal and of a decimal literal [n / 10^k]
    (both operands are exact, and the division rounds to nearest even, as
    the reading of a decimal literal does). *)
Definition of_Z (n : Z) : float := binary_normalize prec emax n 0 false.
Definition dec (n : Z) (k : Z) : float :=
  SFdiv prec emax (of_Z n) (of_Z (10 ^ k)).

(** [0.0] *)
Definition zero : float := S754_zero false.

(** The builtin [max(a, b)] on two arguments: the first argument is kept
    unless the second is strictly greater. *)
Definition max (a b : float) : float := if ltb a b then b else a.

Definition is_nan (a : float) : bool :=
  match a with S754_nan => true | _ => false end.

End PyFloat.

Abbreviation float := PyFloat.float.

(* ------------------------------------------------------------------ *)
(** ** Outcomes of fallible code *)

Inductive exn : Type :=
| ValidationError   (* a pydantic validator rejected a field *)
| IndexError.       (* a list was indexed out of range *)

(** [OutOfFuel] is the outcome of a loop whose iteration bound was
    exhausted before its condition became false. *)
Inductive result (A : Type) : Type :=
| Ok (a : A)
| Raise (e : exn)
| OutOfFuel.

Arguments Ok {A} a.
Arguments Raise {A} e.
Arguments OutOfFuel {A}.

Definition bind {A B : Type} (c : result A) (k : A -> result B) : result B :=
  match c with
  | Ok a => k a
  | Raise e => Raise e
  | OutOfFuel => OutOfFuel
  end.

Notation "x <- c ;; k" := (bind c (fun x => k))
  (at level 61, c at next level, right associativity).
Notation "' pat <- c ;; k" := (bind c (fun x => match x with pat => k end))
  (at level 61, pat pattern, c at next level, right associativity).

(** [l[n]] *)
Definition getitem {A : Type} (l : list A) (n : nat) : result A :=
  match nth_error l n with
  | Some x => Ok x
  | None => Raise IndexError
  end.

(** The last element of a list, if any. *)
Fixpoint last_opt {A : Type} (l : list A) : option A :=
  match l with
  | [] => None
  | [x] => Some x
  | _ :: l' => last_opt l'
  end.

(** [l[-1]] *)
Definition getitem_last {A : Type} (l : list A) : result A :=
  match last_opt l with
  | Some x => Ok x
  | None => Raise IndexError
  end.

(** [l[-1] = x] *)
Definition setitem_last {A : Type} (l : list A) (x : A) : result (list A) :=
  match l with
  | [] => Raise IndexError
  | _ :: _ => Ok (removelast l ++ [x])
  end.

(** [bool(l)] for a list: true when the list is not empty. *)
Definition nonempty {A : Type} (l : list A) : bool :=
  match l with [] => false | _ :: _ => true end.

(* ------------------------------------------------------------------ *)
(** ** Data model *)

Definition UUID := N.

(** [class ASRSegment(BaseModel)] of [asr_service.py]. *)
Module ASRSegment.

Record t : Type := Build {
  segment_id : Z;
  start_time : float;          (* Field(..., ge=0.0) *)
  end_time : float;            (* Field(..., ge=0.0) *)
  text : str;
  speaker_id : option str
}.

(** The field validators: [start_time >= 0.0] and [end_time >= 0.0]
    (the comparison is false on a NaN, which is rejected). *)
Definition valid (s : t) : bool :=
  PyFloat.leb PyFloat.zero (start_time s)
  && PyFloat.leb PyFloat.zero (end_time s).

(** [ASRSegment(segment_id=..., start_time=..., ...)] *)
Definition new (segment_id : Z) (start_time end_time : float) (text : str)
    (speaker_id : option str) : result t :=
  let s := Build segment_id start_time end_time text speaker_id in
  if valid s then Ok s else Raise ValidationError.

End ASRSegment.

(** [class ASRResult(BaseModel)] of [asr_service.py]; [created_at] is a
    timestamp the structurer never reads. *)
Module ASRResult.

Record t : Type := Build {
  asr_id : UUID;
  audio_id : UUID;
  language : str;
  transcript : str;
  segments : list ASRSegment.t;
  created_at : Z;
  engine_name : option str;
  model_name : option str
}.

End ASRResult.

(** [class UtteranceUnit(BaseModel)]. *)
Module UtteranceUnit.

Record t : Type := Build {
  utterance_id : UUID;
  speaker_id : str;
  text : str;
  start_time : float;          (* ge=0.0 *)
  end_time : float;            (* ge=0.0 *)
  duration : float;
  confidence : option float;
  pause_before : float;        (* ge=0.0 *)
  pause_level : str;
  index_in_session : Z         (* ge=0 *)
}.

Definition valid (x : t) : bool :=
  PyFloat.leb PyFloat.zero (start_time x)
  && PyFloat.leb PyFloat.zero (end_time x)
  && PyFloat.leb PyFloat.zero (pause_before x)
  && (0 <=? index_in_session x)%Z.

(** [UtteranceUnit(utterance_id=..., ...)] *)
Definition new (utterance_id : UUID) (speaker_id text : str)
    (start_time end_time duration : float) (confidence : option float)
    (pause_before : float) (pause_level : str) (index_in_session : Z)
    : result t :=
  let x := Build utterance_id speaker_id text start_time end_time duration
                 confidence pause_before pause_level index_in_session in
  if valid x then Ok x else Raise ValidationError.

End UtteranceUnit.

(* ------------------------------------------------------------------ *)
(** ** Constants *)

(** [PAUSE_THRESHOLD_SHORT: float = 0.7] *)
Definition PAUSE_THRESHOLD_SHORT : float := Eval vm_compute in PyFloat.dec 7 1.
(** [PAUSE_THRESHOLD_LONG: float = 2.0] *)
Definition PAUSE_THRESHOLD_LONG : float := Eval vm_compute in PyFloat.dec 20 1.

Definition FILLER_WORDS : list str :=
  [ u "えー"; u "あの"; u "そのー"; u "えっと"; u "まあ";
    u "なんか"; u "その"; u "あー"; u "うーん"; u "んー" ].

Definition INCOMPLETE_ENDINGS : list str :=
  [ u "て"; u "で"; u "から"; u "ので"; u "のに";
    u "けど"; u "が"; u "けれど"; u "けれども" ].

Definition SHORT : str := u "SHORT".
Definition NORMAL : str := u "NORMAL".
Definition LONG : str := u "LONG".

(* ------------------------------------------------------------------ *)
(** ** [sorted(segments, key=lambda s: s.start_time)]

    [sorted] is stable and compares keys with [<].  It is modelled as the
    stable insertion sort: an element is placed behind the elements whose
    key is strictly smaller and in front of the first one that is not.  On
    keys that [<] orders totally (no NaN, which the validators exclude) the
    stably sorted list is unique, so this is the list [sorted] returns. *)

Fixpoint insert_by_start (x : ASRSegment.t) (l : list ASRSegment.t)
    : list ASRSegment.t :=
  match l with
  | [] => [x]
  | y :: l' =>
    if PyFloat.ltb (ASRSegment.start_time y) (ASRSegment.start_time x)
    then y :: insert_by_start x l'
    else x :: l
  end.

Fixpoint sorted_by_start (l : list ASRSegment.t) : list ASRSegment.t :=
  match l with
  | [] => []
  | x :: l' => insert_by_start x (sorted_by_start l')
  end.

(* ------------------------------------------------------------------ *)
(** ** [class ASRResultStructurer] *)

(** [_is_filler_only(text)] *)
Definition _is_filler_only (text : str) : bool :=
  let normalized_text := PyStr.strip text in
  PyStr.mem normalized_text FILLER_WORDS.

(** [_has_incomplete_ending(text)]: the [for] loop over the set returns
    [True] at the first ending that matches and [False] after the last. *)
Definition _has_incomplete_ending (text : str) : bool :=
  let normalized_text := PyStr.strip text in
  existsb (fun ending => PyStr.endswith normalized_text ending)
          INCOMPLETE_ENDINGS.

(** [_is_short_pause(pause_duration)] *)
Definition _is_short_pause (pause_duration : float) : bool :=
  PyFloat.ltb pause_duration PAUSE_THRESHOLD_SHORT.

(** [_classify_pause_level(pause_duration)] *)
Definition _classify_pause_level (pause_duration : float) : str :=
  if PyFloat.ltb pause_duration PAUSE_THRESHOLD_SHORT then SHORT
  else if PyFloat.ltb pause_duration PAUSE_THRESHOLD_LONG then NORMAL
  else LONG.

(** [_merge_segments(segment1, segment2)] *)
Definition _merge_segments (segment1 segment2 : ASRSegment.t)
    : result ASRSegment.t :=
  let merged_text :=
    PyStr.strip (PyStr.fmt_space (ASRSegment.text segment1)
                                 (ASRSegment.text segment2)) in
  let merged_start := ASRSegment.start_time segment1 in
  let merged_end := ASRSegment.end_time segment2 in
  ASRSegment.new (ASRSegment.segment_id segment1) merged_start merged_end
                 merged_text (ASRSegment.speaker_id segment1).

(** [_merge_with_previous(previous_unit, filler_segment)] *)
Definition _merge_with_previous (previous_unit : UtteranceUnit.t)
    (filler_segment : ASRSegment.t) : result UtteranceUnit.t :=
  let merged_text :=
    PyStr.strip (PyStr.fmt_space (UtteranceUnit.text previous_unit)
                                 (ASRSegment.text filler_segment)) in
  let merged_end :=
    PyFloat.max (UtteranceUnit.end_time previous_unit)
                (ASRSegment.end_time filler_segment) in
  let merged_duration :=
    PyFloat.sub merged_end (UtteranceUnit.start_time previous_unit) in
  UtteranceUnit.new
    (UtteranceUnit.utterance_id previous_unit)
    (UtteranceUnit.speaker_id previous_unit)
    merged_text
    (UtteranceUnit.start_time previous_unit)
    merged_end
    merged_duration
    (UtteranceUnit.confidence previous_unit)
    (UtteranceUnit.pause_before previous_unit)
    (UtteranceUnit.pause_level previous_unit)
    (UtteranceUnit.index_in_session previous_unit).

(** The state of the [while] loop of [structure]: the cursor [i], the
    working list [utterance_units], the running [index], and the number of
    [uuid4()] calls made so far. *)
Record loop_state : Type := LoopState {
  i : nat;
  utterance_units : list UtteranceUnit.t;
  index : Z;
  uuid_calls : nat
}.

Section Structurer.

(** The identifier returned by the n-th call of [uuid4()]. *)
Variable uuid4 : nat -> UUID.

(** [_create_utterance_unit(segment, speaker_id, previous_units, index)];
    the second component of the result is the updated count of [uuid4()]
    calls.  [if previous_units:] is the test that a last element exists. *)
Definition _create_utterance_unit (calls : nat) (segment : ASRSegment.t)
    (speaker_id : str) (previous_units : list UtteranceUnit.t) (index : Z)
    : result (UtteranceUnit.t * nat) :=
  let pause_before :=
    match last_opt previous_units with
    | Some last_unit =>
      let pause_before :=
        PyFloat.sub (ASRSegment.start_time segment)
                    (UtteranceUnit.end_time last_unit) in
      PyFloat.max PyFloat.zero pause_before
    | None => PyFloat.zero
    end in
  let pause_level := _classify_pause_level pause_before in
  let duration :=
    PyFloat.sub (ASRSegment.end_time segment)
                (ASRSegment.start_time segment) in
  let utterance_id := uuid4 calls in
  unit <- UtteranceUnit.new utterance_id speaker_id
            (ASRSegment.text segment)
            (ASRSegment.start_time segment)
            (ASRSegment.end_time segment)
            duration None pause_before pause_level index ;;
  Ok (unit, S calls).

(** Lines 185-194: normal processing of [current_segment]. *)
Definition normal_processing (speaker_id : str) (st : loop_state)
    (current_segment : ASRSegment.t) : result loop_state :=
  '(utterance_unit, calls) <-
     _create_utterance_unit (uuid_calls st) current_segment speaker_id
                            (utterance_units st) (index st) ;;
  Ok (LoopState (i st + 1) (utterance_units st ++ [utterance_unit])
                (index st + 1) calls).

(** Lines 160-194: the incomplete-ending check with its lookahead, falling
    back to normal processing. *)
Definition incomplete_check (segments : list ASRSegment.t) (speaker_id : str)
    (st : loop_state) (current_segment : ASRSegment.t) : result loop_state :=
  if (i st + 1 <? length segments)%nat then
    next_segment <- getitem segments (i st + 1) ;;
    if negb (_is_filler_only (ASRSegment.text next_segment)) then
      let pause :=
        PyFloat.sub (ASRSegment.start_time next_segment)
                    (ASRSegment.end_time current_segment) in
      if _has_incomplete_ending (ASRSegment.text current_segment)
         && _is_short_pause pause
      then
        merged_segment <- _merge_segments current_segment next_segment ;;
        '(utterance_unit, calls) <-
           _create_utterance_unit (uuid_calls st) merged_segment speaker_id
                                  (utterance_units st) (index st) ;;
        Ok (LoopState (i st + 2) (utterance_units st ++ [utterance_unit])
                      (index st + 1) calls)
      else normal_processing speaker_id st current_segment
    else normal_processing speaker_id st current_segment
  else normal_processing speaker_id st current_segment.

(** Lines 145-194: one iteration of the [while] loop. *)
Definition loop_body (segments : list ASRSegment.t) (speaker_id : str)
    (st : loop_state) : result loop_state :=
  current_segment <- getitem segments (i st) ;;
  if _is_filler_only (ASRSegment.text current_segment) then
    if nonempty (utterance_units st) then
      last_unit <- getitem_last (utterance_units st) ;;
      merged <- _merge_with_previous last_unit current_segment ;;
      units <- setitem_last (utterance_units st) merged ;;
      Ok (LoopState (i st + 1) units (index st) (uuid_calls st))
    else incomplete_check segments speaker_id st current_segment
  else incomplete_check segments speaker_id st current_segment.

(** [while i < len(segments): ...], bounded by [fuel] iterations. *)
Fixpoint while_loop (fuel : nat) (segments : list ASRSegment.t)
    (speaker_id : str) (st : loop_state) : result (list UtteranceUnit.t) :=
  if (i st <? length segments)%nat then
    match fuel with
    | O => OutOfFuel
    | S fuel' =>
      st' <- loop_body segments speaker_id st ;;
      while_loop fuel' segments speaker_id st'
    end
  else Ok (utterance_units st).

(** [structure(asr_result, speaker_id)].  Every iteration advances the
    cursor, so [len(segments)] iterations are enough. *)
Definition structure (asr_result : ASRResult.t) (speaker_id : str)
    : result (list UtteranceUnit.t) :=
  let segments := sorted_by_start (ASRResult.segments asr_result) in
  if negb (nonempty segments) then Ok []
  else while_loop (length segments) segments speaker_id (LoopState 0 [] 0 0).

End Structurer.

(* ------------------------------------------------------------------ *)
(** ** Predicates used in the statements *)

(** [a <= b] on floats, as a proposition. *)
Definition fle (a b : float) : Prop := PyFloat.leb a b = true.

(** Segments compared by their sort key. *)
Definition start_le (s t : ASRSegment.t) : Prop :=
  fle (ASRSegment.start_time s) (ASRSegment.start_time t).

(** Every segment passed the validators of [ASRSegment]. *)
Definition segments_valid (l : list ASRSegment.t) : Prop :=
  Forall (fun s => ASRSegment.valid s = true) l.

(** The pause computed by [_create_utterance_unit] for a segment that
    follows the units [previous_units]. *)
Definition pause_before_of (segment : ASRSegment.t)
    (previous_units : list UtteranceUnit.t) : float :=
  match last_opt previous_units with
  | Some last_unit =>
    PyFloat.max PyFloat.zero
      (PyFloat.sub (ASRSegment.start_time segment)
                   (UtteranceUnit.end_time last_unit))
  | None => PyFloat.zero
  end.

(** The unit [_create_utterance_unit] builds when validation succeeds. *)
Definition unit_of_segment (id : UUID) (segment : ASRSegment.t)
    (speaker_id : str) (previous_units : list UtteranceUnit.t) (index : Z)
    : UtteranceUnit.t :=
  UtteranceUnit.Build id speaker_id
    (ASRSegment.text segment)
    (ASRSegment.start_time segment)
    (ASRSegment.end_time segment)
    (PyFloat.sub (ASRSegment.end_time segment) (ASRSegment.start_time segment))
    None
    (pause_before_of segment previous_units)
    (_classify_pause_level (pause_before_of segment previous_units))
    index.

(** The loop invariant of [structure] over the sorted [segments]. *)
Record loop_inv (uuid4 : nat -> UUID) (segments : list ASRSegment.t)
    (st : loop_state) : Prop := LoopInv {
  inv_cursor : i st <= length segments;
  inv_progress : 0 < i st -> utterance_units st <> [];
  inv_index : index st = Z.of_nat (length (utterance_units st));
  inv_calls : uuid_calls st = length (utterance_units st);
  inv_indices :
    map UtteranceUnit.index_in_session (utterance_units st)
    = map Z.of_nat (seq 0 (length (utterance_units st)));
  inv_ids :
    map UtteranceUnit.utterance_id (utterance_units st)
    = map uuid4 (seq 0 (length (utterance_units st)));
  inv_sorted :
    StronglySorted fle (map UtteranceUnit.start_time (utterance_units st));
  inv_before_rest :
    Forall (fun x => Forall (fun s => fle x (ASRSegment.start_time s))
                            (skipn (i st) segments))
           (map UtteranceUnit.start_time (utterance_units st));
  inv_valid :
    Forall (fun x => UtteranceUnit.valid x = true) (utterance_units st);
  inv_level :
    Forall (fun x => UtteranceUnit.pause_level x
                     = _classify_pause_level (UtteranceUnit.pause_before x))
           (utterance_units st);
  inv_first_pause :
    forall p, hd_error (map UtteranceUnit.pause_before (utterance_units st))
              = Some p -> p = PyFloat.zero;
  inv_first_start :
    forall x s, hd_error (utterance_units st) = Some x ->
                hd_error segments = Some s ->
                UtteranceUnit.start_time x = ASRSegment.start_time s
}.

(** The segment [_merge_segments] builds when validation succeeds. *)
Definition merged_of (segment1 segment2 : ASRSegment.t) : ASRSegment.t :=
  ASRSegment.Build (ASRSegment.segment_id segment1)
    (ASRSegment.start_time segment1) (ASRSegment.end_time segment2)
    (PyStr.strip (PyStr.fmt_space (ASRSegment.text segment1)
                                  (ASRSegment.text segment2)))
    (ASRSegment.speaker_id segment1).

(** The unit [_merge_with_previous] builds when validation succeeds. *)
Definition absorbed_of (previous_unit : UtteranceUnit.t)
    (filler_segment : ASRSegment.t) : UtteranceUnit.t :=
  let merged_end :=
    PyFloat.max (UtteranceUnit.end_time previous_unit)
                (ASRSegment.end_time filler_segment) in
  UtteranceUnit.Build
    (UtteranceUnit.utterance_id previous_unit)
    (UtteranceUnit.speaker_id previous_unit)
    (PyStr.strip (PyStr.fmt_space (UtteranceUnit.text previous_unit)
                                  (ASRSegment.text filler_segment)))
    (UtteranceUnit.start_time previous_unit)
    merged_end
    (PyFloat.sub merged_end (UtteranceUnit.start_time previous_unit))
    (UtteranceUnit.confidence previous_unit)
    (UtteranceUnit.pause_before previous_unit)
    (UtteranceUnit.pause_level previous_unit)
    (UtteranceUnit.index_in_session previous_unit).

(* ------------------------------------------------------------------ *)
(** ** The specification's wording of the two merged texts

    These two definitions follow the words of the specification, to be
    compared with what [_merge_segments] and [_merge_with_previous]
    compute. *)

(** "[trim(a.text) + " " + trim(b.text)] (both sides trimmed before
    concatenation, result re-trimmed)". *)
Definition mergeSegments_spec_text (a b : ASRSegment.t) : str :=
  PyStr.strip (PyStr.fmt_space (PyStr.strip (ASRSegment.text a))
                               (PyStr.strip (ASRSegment.text b))).

(** "[text = trim(unit.text) + " " + trim(fillerSegment.text)]". *)
Definition absorbFiller_spec_text (unit : UtteranceUnit.t)
    (fillerSegment : ASRSegment.t) : str :=
  PyStr.fmt_space (PyStr.strip (UtteranceUnit.text unit))
                  (PyStr.strip (ASRSegment.text fillerSegment)).

(** [sub in s]: [sub] occurs in [s] as a contiguous run of characters. *)
Fixpoint startswith (s pre : str) : bool :=
  match pre, s with
  | [], _ => true
  | x :: pre', y :: s' => (x =? y)%N && startswith s' pre'
  | _ :: _, [] => false
  end.

Fixpoint contains (s sub : str) : bool :=
  startswith s sub
  || match s with
     | [] => false
     | _ :: s' => contains s' sub
     end.

(** "The resulting merged unit (the unit whose text combines segment i and
    segment i+2)" with the filler absorbed into it: some returned unit
    whose text holds the texts of all three segments. *)
Definition filler_joined_merged_pair (units : list UtteranceUnit.t)
    (seg_i filler seg_i2 : ASRSegment.t) : bool :=
  existsb (fun x =>
             contains (UtteranceUnit.text x) (PyStr.strip (ASRSegment.text seg_i))
             && contains (UtteranceUnit.text x) (PyStr.strip (ASRSegment.text filler))
             && contains (UtteranceUnit.text x) (PyStr.strip (ASRSegment.text seg_i2)))
          units.

(** "Merges the two segments into one unit ... with their texts joined by
    a space": some returned unit whose text holds the texts of both
    segments. *)
Definition pair_joined_in_one_unit (units : list UtteranceUnit.t)
    (seg_i seg_next : ASRSegment.t) : bool :=
  existsb (fun x =>
             contains (UtteranceUnit.text x) (PyStr.strip (ASRSegment.text seg_i))
             && contains (UtteranceUnit.text x)
                         (PyStr.strip (ASRSegment.text seg_next)))
          units.

(* ------------------------------------------------------------------ *)
(** ** Test data *)

Module Demo.

(** A source of identifiers: the n-th call returns n. *)
Definition uuid4 (n : nat) : UUID := N.of_nat n.

Definition speaker : str := u "speaker_0".

Definition segment (id : Z) (start_time end_time : float) (text : str)
    : ASRSegment.t :=
  ASRSegment.Build id start_time end_time text None.

Definition asr_result (segments : list ASRSegment.t) : ASRResult.t :=
  ASRResult.Build 1%N 2%N (u "ja") [] segments 0 (Some (u "whisper"))
                  (Some (u "base")).

(** Float literals. *)
Definition f0_0 : float := Eval vm_compute in PyFloat.dec 0 1.
Definition f0_5 : float := Eval vm_compute in PyFloat.dec 5 1.
Definition f0_69 : float := Eval vm_compute in PyFloat.dec 69 2.
Definition f0_7 : float := Eval vm_compute in PyFloat.dec 7 1.
Definition f1_0 : float := Eval vm_compute in PyFloat.dec 10 1.
Definition f1_1 : float := Eval vm_compute in PyFloat.dec 11 1.
Definition f1_2 : float := Eval vm_compute in PyFloat.dec 12 1.
Definition f1_3 : float := Eval vm_compute in PyFloat.dec 13 1.
Definition f1_99 : float := Eval vm_compute in PyFloat.dec 199 2.
Definition f2_0 : float := Eval vm_compute in PyFloat.dec 20 1.
Definition f2_1 : float := Eval vm_compute in PyFloat.dec 21 1.
Definition f3_0 : float := Eval vm_compute in PyFloat.dec 30 1.

(** An incomplete ending followed within a short pause. *)
Definition seg_hareta : ASRSegment.t :=
  segment 0 f0_0 f1_0 (u "今日は晴れたので").
Definition seg_dekake : ASRSegment.t :=
  segment 1 f1_3 f2_0 (u "出かけました").
Definition incomplete_pair : list ASRSegment.t := [seg_hareta; seg_dekake].

(** The same pair with a filler in between. *)
Definition seg_ano : ASRSegment.t := segment 1 f1_0 f1_2 (u "あの").
Definition seg_dekake2 : ASRSegment.t :=
  segment 2 f1_3 f2_0 (u "出かけました").
Definition incomplete_filler_next : list ASRSegment.t :=
  [seg_hareta; seg_ano; seg_dekake2].

(** A filler with nothing before it. *)
Definition seg_ano_first : ASRSegment.t := segment 0 f0_0 f0_5 (u "あの").
Definition filler_alone : list ASRSegment.t := [seg_ano_first].

(** Three segments, the first two with incomplete endings, all within
    short pauses; given out of order. *)
Definition seg_futte : ASRSegment.t := segment 0 f0_0 f1_0 (u "雨が降って").
Definition seg_samukatta : ASRSegment.t :=
  segment 1 f1_1 f2_0 (u "寒かったので").
Definition seg_kaerimashita : ASRSegment.t :=
  segment 2 f2_1 f3_0 (u "帰りました").
Definition chain : list ASRSegment.t :=
  [seg_kaerimashita; seg_futte; seg_samukatta].

(** Two overlapping segments: the second starts before the first ends. *)
Definition overlapping : list ASRSegment.t :=
  [ segment 0 f0_0 f2_0 (u "はい"); segment 1 f1_0 f3_0 (u "いいえ") ].

(** A segment whose text ends with a space, and its successor. *)
Definition seg_hai : ASRSegment.t := segment 0 f0_0 f1_0 (u "はい ").
Definition seg_soudesu : ASRSegment.t := segment 1 f1_1 f2_0 (u "そうです").

(** A unit and a filler segment whose text starts with a space. *)
Definition unit_konnichiwa : UtteranceUnit.t :=
  UtteranceUnit.Build 7%N speaker (u "こんにちは") f0_0 f1_0 f1_0 None
                      PyFloat.zero SHORT 0.
Definition seg_ano_spaced : ASRSegment.t := segment 1 f1_0 f1_2 (u " あの").

End Demo.

(* ------------------------------------------------------------------ *)
(** ** The walk as a step relation *)

(** The loop states the walk of [structure] goes through on [segments]:
    the initial state, and every state one iteration after a state of the
    walk whose cursor is still inside the list. *)
Inductive reachable (uuid4 : nat -> UUID) (segments : list ASRSegment.t)
    (speaker_id : str) : loop_state -> Prop :=
| reach_init : reachable uuid4 segments speaker_id (LoopState 0 [] 0 0)
| reach_step st st' :
    reachable uuid4 segments speaker_id st ->
    i st < length segments ->
    loop_body uuid4 segments speaker_id st = Ok st' ->
    reachable uuid4 segments speaker_id st'.

(** The filler-only segments at the front of a list. *)
Fixpoint leading_fillers (l : list ASRSegment.t) : list ASRSegment.t :=
  match l with
  | [] => []
  | s :: l' =>
    if _is_filler_only (ASRSegment.text s) then s :: leading_fillers l' else []
  end.

(** A unit after it absorbed the given fillers, one after the other. *)
Definition absorb_all (x : UtteranceUnit.t) (fillers : list ASRSegment.t)
    : UtteranceUnit.t :=
  fold_left absorbed_of fillers x.

(* ------------------------------------------------------------------ *)
(** ** [whisper_asr_service.py]: from Whisper's result to an [ASRResult] *)

(** [class AudioMetadata(BaseModel)] of [audio_metadata_service.py]; a path
    is its string, [recorded_at] a timestamp. *)
Module AudioMetadata.

Record t : Type := Build {
  audio_id : UUID;
  audio_path : str;
  duration : option float;
  sampling_rate : option Z;
  audio_format : option str;
  channel : option str;
  recorded_at : option Z
}.

End AudioMetadata.

Module Whisper.

(** One segment dictionary of Whisper's result, restricted to the keys the
    service reads; [None] is an absent key.  The values have the types
    Whisper emits (two floats and a string), on which [float(v)] is [v]. *)
Record segment_dict : Type := SegmentDict {
  start : option float;
  end_ : option float;
  text : option str
}.

(** The result dictionary of [model.transcribe], restricted to the keys
    [text] and [segments]. *)
Record result_dict : Type := ResultDict {
  result_text : option str;
  result_segments : option (list segment_dict)
}.

(** [d.get(key, default)] *)
Definition get {A : Type} (value : option A) (default : A) : A :=
  match value with
  | Some v => v
  | None => default
  end.

(** What [transcribe] ends with: the [FileNotFoundError] it raises itself,
    or the outcome of the code that runs once the file was found. *)
Inductive outcome (A : Type) : Type :=
| FileNotFoundError
| Ran (r : result A).

Arguments FileNotFoundError {A}.
Arguments Ran {A} r.

(** [_get_speaker_id(audio_metadata)] *)
Definition _get_speaker_id (audio_metadata : AudioMetadata.t) : str :=
  u "speaker_0".

(** The [for] loop of [_convert_segments], on the segments not yet visited,
    with the list built so far and the running [segment_id]. *)
Fixpoint convert_loop (whisper_segments : list segment_dict)
    (speaker_id : str) (segments : list ASRSegment.t) (segment_id : Z)
    : result (list ASRSegment.t) :=
  match whisper_segments with
  | [] => Ok segments
  | whisper_seg :: rest =>
    let start_time := get (start whisper_seg) PyFloat.zero in
    let end_time := get (end_ whisper_seg) PyFloat.zero in
    let text := PyStr.strip (get (text whisper_seg) []) in
    if negb (nonempty text) then
      convert_loop rest speaker_id segments segment_id
    else
      segment <- ASRSegment.new segment_id start_time end_time text
                   (Some speaker_id) ;;
      convert_loop rest speaker_id (segments ++ [segment]) (segment_id + 1)
  end.

(** [_convert_segments(whisper_segments, audio_metadata)] *)
Definition _convert_segments (whisper_segments : list segment_dict)
    (audio_metadata : AudioMetadata.t) : result (list ASRSegment.t) :=
  let speaker_id := _get_speaker_id audio_metadata in
  convert_loop whisper_segments speaker_id [] 0.

(** [language if language and language.strip() else None] *)
Definition whisper_language (language : str) : option str :=
  if nonempty language && nonempty (PyStr.strip language)
  then Some language else None.

Section Transcribe.

(** What [transcribe] observes of the outside: whether the audio file
    exists, what the loaded model answers for a path and a language, the
    identifier [uuid4()] returns and the clock. *)
Variable path_exists : str -> bool.
Variable model_transcribe : str -> option str -> result_dict.
Variable asr_uuid : UUID.
Variable now : Z.

(** [WhisperASRService(model_name).transcribe(audio_metadata, language)] *)
Definition transcribe (model_name : str) (audio_metadata : AudioMetadata.t)
    (language : str) : outcome ASRResult.t :=
  let audio_path := AudioMetadata.audio_path audio_metadata in
  if negb (path_exists audio_path) then FileNotFoundError
  else
    let result := model_transcribe audio_path (whisper_language language) in
    let transcript := PyStr.strip (get (result_text result) []) in
    Ran (segments <- _convert_segments (get (result_segments result) [])
                                       audio_metadata ;;
         let segments := sorted_by_start segments in
         Ok (ASRResult.Build asr_uuid (AudioMetadata.audio_id audio_metadata)
               language transcript segments now
               (Some (u "whisper")) (Some model_name))).

End Transcribe.

End Whisper.

(* ------------------------------------------------------------------ *)
(** ** Predicates of the further properties *)

(** A text does not start, or does not end, with a whitespace character. *)
Definition no_leading_space (s : str) : bool :=
  match s with
  | [] => true
  | c :: _ => negb (PyStr.isspace c)
  end.

Definition no_trailing_space (s : str) : bool := no_leading_space (rev s).

(** The pause of a unit is the clamped gap to the unit before it. *)
Definition pause_follows (x y : UtteranceUnit.t) : Prop :=
  UtteranceUnit.pause_before y
  = PyFloat.max PyFloat.zero
      (PyFloat.sub (UtteranceUnit.start_time y) (UtteranceUnit.end_time x)).

(** A Whisper segment is kept when its stripped text is not empty, and its
    times pass the validators of [ASRSegment]. *)
Definition whisper_kept (w : Whisper.segment_dict) : bool :=
  nonempty (PyStr.strip (Whisper.get (Whisper.text w) [])).

Definition whisper_times_ok (w : Whisper.segment_dict) : bool :=
  PyFloat.leb PyFloat.zero (Whisper.get (Whisper.start w) PyFloat.zero)
  && PyFloat.leb PyFloat.zero (Whisper.get (Whisper.end_ w) PyFloat.zero).

(** Two segments start at different times. *)
Definition starts_differ (s t : ASRSegment.t) : Prop :=
  PyFloat.ltb (ASRSegment.start_time s) (ASRSegment.start_time t) = true
  \/ PyFloat.ltb (ASRSegment.start_time t) (ASRSegment.start_time s) = true.

(** The segment [_convert_segments] builds from a kept Whisper segment. *)
Definition converted_of (speaker_id : str) (segment_id : Z)
    (w : Whisper.segment_dict) : ASRSegment.t :=
  ASRSegment.Build segment_id
    (Whisper.get (Whisper.start w) PyFloat.zero)
    (Whisper.get (Whisper.end_ w) PyFloat.zero)
    (PyStr.strip (Whisper.get (Whisper.text w) []))
    (Some speaker_id).

(** A segment with its number set aside (to compare the other fields). *)
Definition unnumbered (s : ASRSegment.t) : ASRSegment.t :=
  ASRSegment.Build 0 (ASRSegment.start_time s) (ASRSegment.end_time s)
                   (ASRSegment.text s) (ASRSegment.speaker_id s).

(** Test data for the Whisper service. *)
Module WhisperDemo.

Definition metadata : AudioMetadata.t :=
  AudioMetadata.Build 2%N (u "/data/sample.wav") None None
                      (Some (u "wav")) None None.

(** Whisper segments as the model emits them: texts with a leading space,
    one blank text, and the second and third out of order. *)
Definition raw_segments : list Whisper.segment_dict :=
  [ Whisper.SegmentDict (Some Demo.f0_0) (Some Demo.f1_0) (Some (u " 今日は晴れたので"));
    Whisper.SegmentDict (Some Demo.f2_1) (Some Demo.f3_0) (Some (u " 帰りました"));
    Whisper.SegmentDict (Some Demo.f1_0) (Some Demo.f1_2) (Some (u "  "));
    Whisper.SegmentDict (Some Demo.f1_3) (Some Demo.f2_0) (Some (u " 出かけました ")) ].

Definition raw_result : Whisper.result_dict :=
  Whisper.ResultDict (Some (u " 今日は晴れたので 出かけました 帰りました"))
                     (Some raw_segments).

(** The same segments with a negative start in the second one, and with
    that segment blank. *)
Definition minus_0_5 : float := Eval vm_compute in PyFloat.dec (-5) 1.

Definition bad_segments : list Whisper.segment_dict :=
  [ Whisper.SegmentDict (Some Demo.f0_0) (Some Demo.f1_0) (Some (u " 今日は"));
    Whisper.SegmentDict (Some minus_0_5) (Some Demo.f3_0) (Some (u " 帰りました")) ].

Definition path_exists (path : str) : bool := true.
Definition model_transcribe (path : str) (language : option str)
    : Whisper.result_dict := raw_result.

End WhisperDemo.

(* ------------------------------------------------------------------ *)
(** ** [analysis_context_service.py], [evidence_dto.py] and
       [hsie_controller.py] *)

(** [class AnalysisContext(BaseModel)]; no field has a constraint. *)
Module AnalysisContext.

Record t : Type := Build {
  context_id : UUID;
  audio_id : UUID;
  session_id : str;
  speaker_id : str;
  audio_path : str;
  asr_engine : str;
  asr_version : option str;
  language : str;
  sampling_rate : option Z;
  duration : option float;
  utterance_units : list UtteranceUnit.t;
  created_at : Z;
  status : str
}.

End AnalysisContext.

(** [AnalysisContextService.build(audio_metadata, asr_result, session_id,
    speaker_id)]; [context_uuid] is what [uuid4()] returns and [now] what
    [datetime.now()] returns. *)
Definition build (context_uuid : UUID) (now : Z)
    (audio_metadata : AudioMetadata.t) (asr_result : ASRResult.t)
    (session_id speaker_id : str) : AnalysisContext.t :=
  let context_id := context_uuid in
  let audio_id := AudioMetadata.audio_id audio_metadata in
  let audio_path := AudioMetadata.audio_path audio_metadata in
  let sampling_rate := AudioMetadata.sampling_rate audio_metadata in
  let duration := AudioMetadata.duration audio_metadata in
  let language := ASRResult.language asr_result in
  let asr_engine := u "placeholder" in
  let asr_version : option str := None in
  let utterance_units : list UtteranceUnit.t := [] in
  let created_at := now in
  let status := u "CREATED" in
  AnalysisContext.Build context_id audio_id session_id speaker_id audio_path
    asr_engine asr_version language sampling_rate duration utterance_units
    created_at status.

(** [class Evidence(BaseModel)]; [evidence_id] is filled by its default
    factory [uuid4]. *)
Module Evidence.

Record t : Type := Build {
  evidence_id : UUID;
  context : AnalysisContext.t;
  asr_result : ASRResult.t;
  utterance_units : list UtteranceUnit.t;
  saved_at : Z;
  version : str
}.

End Evidence.

(** [class HSIEController]: the services given to the constructor that
    are not modelled here are parameters, with the exceptions they raise
    in a type [E] and the state of the repository in a type [Store]. *)
Module HSIEController.

(** How [run] ends: it returns an identifier and leaves the repository in
    a new state, or an exception of a service leaves it, or one of
    [structure]. *)
Inductive outcome (E Store : Type) : Type :=
| Returned (evidence_id : UUID) (store : Store)
| Raised (e : E)
| RaisedByStructure (r : result (list UtteranceUnit.t)).

Arguments Returned {E Store} evidence_id store.
Arguments Raised {E Store} e.
Arguments RaisedByStructure {E Store} r.

Section Run.

Variables E Store : Type.

(** [audio_metadata_service.collect], [asr_service.transcribe] and
    [evidence_repository.save]. *)
Variable collect : str -> E + AudioMetadata.t.
Variable transcribe : AudioMetadata.t -> str -> E + ASRResult.t.
Variable save : Evidence.t -> Store -> E + Store.

(** The identifiers [uuid4()] returns in [build], in [structure] and in
    the default factory of [Evidence], and the two clock readings. *)
Variable context_uuid : UUID.
Variable unit_uuid : nat -> UUID.
Variable evidence_uuid : UUID.
Variable context_now evidence_now : Z.

(** [run(audio_path, session_id, speaker_id, language)] *)
Definition run (audio_path session_id speaker_id language : str)
    (store : Store) : outcome E Store :=
  match collect audio_path with
  | inl e => Raised e
  | inr audio_metadata =>
    match transcribe audio_metadata language with
    | inl e => Raised e
    | inr asr_result =>
      let analysis_context :=
        build context_uuid context_now audio_metadata asr_result
              session_id speaker_id in
      match structure unit_uuid asr_result speaker_id with
      | Ok utterance_units =>
        let evidence :=
          Evidence.Build evidence_uuid analysis_context asr_result
                         utterance_units evidence_now (u "v1") in
        match save evidence store with
        | inl e => Raised e
        | inr store' => Returned (Evidence.evidence_id evidence) store'
        end
      | failure => RaisedByStructure failure
      end
    end
  end.

End Run.

End HSIEController.

(** Test data for the controller: services that succeed, and a repository
    that is the list of the evidences saved. *)
Module ControllerDemo.

Definition collect (path : str) : unit + AudioMetadata.t :=
  inr WhisperDemo.metadata.

(** A metadata service that does not find the file. *)
Definition collect_missing (path : str) : unit + AudioMetadata.t := inl tt.

Definition transcribe (audio_metadata : AudioMetadata.t) (language : str)
    : unit + ASRResult.t :=
  inr (Demo.asr_result Demo.incomplete_filler_next).

Definition save (evidence : Evidence.t) (store : list Evidence.t)
    : unit + list Evidence.t :=
  inr (evidence :: store).

(** Identifiers: 100 for the context, 0, 1, ... for the units, 200 for the
    evidence. *)
Definition context_uuid : UUID := 100%N.
Definition evidence_uuid : UUID := 200%N.

End ControllerDemo.

(* ================================================================== *)
(** * Properties *)

(** ** Order facts on binary64 values *)

Ltac cmp_cases :=
  repeat match goal with
  | |- context [(?a ?= ?b)%Z] => destruct (Z.compare_spec a b)
  | H : context [(?a ?= ?b)%Z] |- _ => destruct (Z.compare_spec a b)
  | |- context [(?a ?= ?b)%positive] => destruct (Pos.compare_spec a b)
  | H : context [(?a ?= ?b)%positive] |- _ => destruct (Pos.compare_spec a b)
  end.

Ltac float_cases :=
  unfold fle, PyFloat.leb, PyFloat.ltb, PyFloat.is_nan, SFleb, SFltb;
  repeat match goal with
  | x : float |- _ => destruct x as [[]|[]| |[] ? ?]
  | x : spec_float |- _ => destruct x as [[]|[]| |[] ? ?]
  end;
  simpl; try congruence;
  change (Pos.compare_cont Eq) with Pos.compare in *;
  cmp_cases; simpl; try congruence; try lia.

Lemma leb_trans (a b c : float) :
  PyFloat.leb a b = true -> PyFloat.leb b c = true -> PyFloat.leb a c = true.
Proof. float_cases. Qed.

Lemma ltb_false_leb (a b : float) :
  PyFloat.is_nan a = false -> PyFloat.is_nan b = false ->
  PyFloat.ltb b a = false -> PyFloat.leb a b = true.
Proof. float_cases. Qed.

Lemma ltb_leb (a b : float) :
  PyFloat.ltb a b = true -> PyFloat.leb a b = true.
Proof. float_cases. Qed.

Lemma leb_ltb_false (a b : float) :
  PyFloat.leb a b = true -> PyFloat.ltb b a = false.
Proof. float_cases. Qed.

Lemma leb_not_nan_l (a b : float) :
  PyFloat.leb a b = true -> PyFloat.is_nan a = false.
Proof. float_cases. Qed.

Lemma leb_not_nan_r (a b : float) :
  PyFloat.leb a b = true -> PyFloat.is_nan b = false.
Proof. float_cases. Qed.

Lemma leb_refl (a : float) :
  PyFloat.is_nan a = false -> PyFloat.leb a a = true.
Proof. float_cases. Qed.

Lemma max_zero_nonneg (x : float) :
  PyFloat.leb PyFloat.zero (PyFloat.max PyFloat.zero x) = true.
Proof.
  unfold PyFloat.max.
  destruct (PyFloat.ltb PyFloat.zero x) eqn:E.
  - now apply ltb_leb.
  - reflexivity.
Qed.

Lemma max_ge_l (a b : float) :
  PyFloat.is_nan a = false -> PyFloat.leb a (PyFloat.max a b) = true.
Proof.
  intros Ha. unfold PyFloat.max.
  destruct (PyFloat.ltb a b) eqn:E.
  - now apply ltb_leb.
  - now apply leb_refl.
Qed.

Lemma max_ge_r (a b : float) :
  PyFloat.is_nan a = false -> PyFloat.is_nan b = false ->
  PyFloat.leb b (PyFloat.max a b) = true.
Proof.
  intros Ha Hb. unfold PyFloat.max.
  destruct (PyFloat.ltb a b) eqn:E.
  - now apply leb_refl.
  - now apply ltb_false_leb.
Qed.

Lemma max_cases (a b : float) :
  PyFloat.max a b = a \/ PyFloat.max a b = b.
Proof. unfold PyFloat.max. destruct (PyFloat.ltb a b); auto. Qed.

Lemma max_nonneg (a b : float) :
  PyFloat.leb PyFloat.zero a = true ->
  PyFloat.leb PyFloat.zero (PyFloat.max a b) = true.
Proof.
  intros Ha. apply leb_trans with a; [exact Ha|].
  apply max_ge_l. eapply leb_not_nan_r; eauto.
Qed.

(** ** List facts *)

Lemma last_opt_snoc {A} (l : list A) (x : A) : last_opt (l ++ [x]) = Some x.
Proof.
  induction l as [|y l IH]; [reflexivity|].
  simpl. destruct (l ++ [x]) eqn:E.
  - destruct l; discriminate.
  - exact IH.
Qed.

Lemma nonempty_snoc {A} (l : list A) :
  nonempty l = true -> exists l' x, l = l' ++ [x].
Proof.
  intros H. destruct (exists_last (l := l)) as (l' & x & E).
  - intros ->. discriminate.
  - eauto.
Qed.

Lemma nonempty_false {A} (l : list A) : nonempty l = false -> l = [].
Proof. destruct l; [reflexivity|discriminate]. Qed.

Lemma setitem_last_snoc {A} (l : list A) (x y : A) :
  setitem_last (l ++ [x]) y = Ok (l ++ [y]).
Proof.
  unfold setitem_last. destruct (l ++ [x]) eqn:E.
  - destruct l; discriminate.
  - rewrite <- E, removelast_last. reflexivity.
Qed.

Lemma getitem_last_snoc {A} (l : list A) (x : A) :
  getitem_last (l ++ [x]) = Ok x.
Proof. unfold getitem_last. now rewrite last_opt_snoc. Qed.

Lemma skipn_nth_error_cons {A} (l : list A) (n : nat) (a : A) :
  nth_error l n = Some a -> skipn n l = a :: skipn (S n) l.
Proof.
  revert n. induction l as [|x l IH]; intros [|n] H; try discriminate.
  - injection H as ->. reflexivity.
  - simpl in H. apply IH in H. exact H.
Qed.

Lemma Forall_skipn_keep {A} (P : A -> Prop) (l : list A) (n : nat) :
  Forall P l -> Forall P (skipn n l).
Proof.
  revert n. induction l as [|x l IH]; intros [|n] H; simpl; auto.
  inversion H; auto.
Qed.

Lemma StronglySorted_skipn_keep {A} (R : A -> A -> Prop) (l : list A) (n : nat) :
  StronglySorted R l -> StronglySorted R (skipn n l).
Proof.
  revert n. induction l as [|x l IH]; intros [|n] H; simpl; auto.
  inversion H; auto.
Qed.

Lemma StronglySorted_snoc {A} (R : A -> A -> Prop) (l : list A) (x : A) :
  StronglySorted R l -> Forall (fun y => R y x) l ->
  StronglySorted R (l ++ [x]).
Proof.
  induction l as [|y l IH]; intros Hs Hf; simpl.
  - repeat constructor.
  - inversion Hs; subst. inversion Hf; subst.
    constructor; [auto|].
    apply Forall_app. split; auto.
Qed.

Lemma seq_snoc_map (n : nat) {B} (f : nat -> B) :
  map f (seq 0 (S n)) = map f (seq 0 n) ++ [f n].
Proof. rewrite seq_S, map_app. reflexivity. Qed.

(** ** [sorted] *)

Lemma segment_valid_start (s : ASRSegment.t) :
  ASRSegment.valid s = true ->
  PyFloat.leb PyFloat.zero (ASRSegment.start_time s) = true.
Proof. unfold ASRSegment.valid. now intros [H _]%andb_prop. Qed.

Lemma segment_valid_end (s : ASRSegment.t) :
  ASRSegment.valid s = true ->
  PyFloat.leb PyFloat.zero (ASRSegment.end_time s) = true.
Proof. unfold ASRSegment.valid. now intros [_ H]%andb_prop. Qed.

Lemma insert_by_start_Forall (P : ASRSegment.t -> Prop) x l :
  P x -> Forall P l -> Forall P (insert_by_start x l).
Proof.
  intros Hx. induction 1 as [|y l Hy Hl IH]; simpl.
  - auto.
  - destruct (PyFloat.ltb _ _); auto.
Qed.

Lemma sorted_by_start_Forall (P : ASRSegment.t -> Prop) l :
  Forall P l -> Forall P (sorted_by_start l).
Proof.
  induction 1; simpl; [constructor|].
  now apply insert_by_start_Forall.
Qed.

Lemma insert_by_start_sorted x l :
  ASRSegment.valid x = true -> segments_valid l ->
  StronglySorted start_le l -> StronglySorted start_le (insert_by_start x l).
Proof.
  intros Hx Hv Hs. induction Hs as [|y l Hs IH Hy]; simpl.
  - repeat constructor.
  - inversion Hv as [|? ? Hvy Hvl]; subst.
    destruct (PyFloat.ltb _ _) eqn:E.
    + constructor; [auto|].
      apply insert_by_start_Forall; [|exact Hy].
      now apply ltb_leb.
    + assert (Hxy : start_le x y).
      { apply ltb_false_leb; [| |exact E].
        - apply leb_not_nan_r with PyFloat.zero. now apply segment_valid_start.
        - apply leb_not_nan_r with PyFloat.zero. now apply segment_valid_start. }
      constructor; [now constructor|].
      constructor; [exact Hxy|].
      eapply Forall_impl; [|exact Hy].
      intros z Hz. unfold start_le, fle in *. eapply leb_trans; eauto.
Qed.

Lemma sorted_by_start_sorted l :
  segments_valid l -> StronglySorted start_le (sorted_by_start l).
Proof.
  induction 1 as [|x l Hx Hl IH]; simpl; [constructor|].
  apply insert_by_start_sorted; auto.
  now apply sorted_by_start_Forall.
Qed.

Lemma insert_by_start_length x l : length (insert_by_start x l) = S (length l).
Proof.
  induction l as [|y l IH]; simpl; [reflexivity|].
  destruct (PyFloat.ltb _ _); simpl; congruence.
Qed.

Lemma sorted_by_start_length l : length (sorted_by_start l) = length l.
Proof.
  induction l as [|x l IH]; simpl; [reflexivity|].
  now rewrite insert_by_start_length, IH.
Qed.

(** [sorted] rearranges its input and drops nothing. *)
Lemma insert_by_start_perm x l : Permutation (x :: l) (insert_by_start x l).
Proof.
  induction l as [|y l IH]; simpl; [reflexivity|].
  destruct (PyFloat.ltb _ _); [|reflexivity].
  rewrite perm_swap. now constructor.
Qed.

Lemma sorted_by_start_perm l : Permutation l (sorted_by_start l).
Proof.
  induction l as [|x l IH]; simpl; [constructor|].
  rewrite <- insert_by_start_perm. now constructor.
Qed.

(** ** The constructors and the two merge operations *)

Lemma merge_segments_ok (a b : ASRSegment.t) :
  ASRSegment.valid a = true -> ASRSegment.valid b = true ->
  _merge_segments a b = Ok (merged_of a b).
Proof.
  intros Ha Hb.
  unfold _merge_segments, merged_of, ASRSegment.new, ASRSegment.valid.
  simpl. now rewrite (segment_valid_start _ Ha), (segment_valid_end _ Hb).
Qed.

Lemma merged_of_valid (a b : ASRSegment.t) :
  ASRSegment.valid a = true -> ASRSegment.valid b = true ->
  ASRSegment.valid (merged_of a b) = true.
Proof.
  intros Ha Hb. unfold merged_of, ASRSegment.valid. simpl.
  now rewrite (segment_valid_start _ Ha), (segment_valid_end _ Hb).
Qed.

Lemma merge_segments_valid (a b s : ASRSegment.t) :
  _merge_segments a b = Ok s -> ASRSegment.valid s = true.
Proof.
  unfold _merge_segments, ASRSegment.new.
  destruct (ASRSegment.valid _) eqn:E; [|discriminate].
  now intros [= <-].
Qed.

Lemma unit_valid_fields (x : UtteranceUnit.t) :
  UtteranceUnit.valid x = true ->
  PyFloat.leb PyFloat.zero (UtteranceUnit.start_time x) = true
  /\ PyFloat.leb PyFloat.zero (UtteranceUnit.end_time x) = true
  /\ PyFloat.leb PyFloat.zero (UtteranceUnit.pause_before x) = true
  /\ (0 <= UtteranceUnit.index_in_session x)%Z.
Proof.
  unfold UtteranceUnit.valid.
  intros [[[H1 H2]%andb_prop H3]%andb_prop H4]%andb_prop.
  repeat split; auto. now apply Z.leb_le.
Qed.

Lemma pause_before_of_nonneg s prev :
  PyFloat.leb PyFloat.zero (pause_before_of s prev) = true.
Proof.
  unfold pause_before_of. destruct (last_opt prev).
  - apply max_zero_nonneg.
  - reflexivity.
Qed.

Lemma unit_of_segment_valid id s spk prev idx :
  ASRSegment.valid s = true -> (0 <= idx)%Z ->
  UtteranceUnit.valid (unit_of_segment id s spk prev idx) = true.
Proof.
  intros Hs Hi. unfold UtteranceUnit.valid, unit_of_segment. simpl.
  rewrite (segment_valid_start _ Hs), (segment_valid_end _ Hs),
    pause_before_of_nonneg.
  simpl. now apply Z.leb_le.
Qed.

Section Blocks.
Variable uuid4 : nat -> UUID.

Lemma create_utterance_unit_ok calls s spk prev idx :
  ASRSegment.valid s = true -> (0 <= idx)%Z ->
  _create_utterance_unit uuid4 calls s spk prev idx
  = Ok (unit_of_segment (uuid4 calls) s spk prev idx, S calls).
Proof.
  intros Hs Hi.
  pose proof (unit_of_segment_valid (uuid4 calls) s spk prev idx Hs Hi) as Hv.
  unfold _create_utterance_unit, UtteranceUnit.new.
  fold (pause_before_of s prev).
  unfold unit_of_segment in Hv. rewrite Hv. reflexivity.
Qed.

End Blocks.

Lemma absorbed_of_valid (x : UtteranceUnit.t) (f : ASRSegment.t) :
  UtteranceUnit.valid x = true -> UtteranceUnit.valid (absorbed_of x f) = true.
Proof.
  intros Hx. destruct (unit_valid_fields _ Hx) as (H1 & H2 & H3 & H4).
  unfold UtteranceUnit.valid, absorbed_of. simpl.
  rewrite H1, H3, (max_nonneg _ _ H2). simpl. now apply Z.leb_le.
Qed.

Lemma merge_with_previous_ok (x : UtteranceUnit.t) (f : ASRSegment.t) :
  UtteranceUnit.valid x = true ->
  _merge_with_previous x f = Ok (absorbed_of x f).
Proof.
  intros Hx. pose proof (absorbed_of_valid x f Hx) as Hv.
  unfold _merge_with_previous, UtteranceUnit.new.
  unfold absorbed_of in Hv. simpl in Hv. rewrite Hv. reflexivity.
Qed.

Lemma Forall_skipn_later {A} (P : A -> Prop) (l : list A) (n m : nat) :
  n <= m -> Forall P (skipn n l) -> Forall P (skipn m l).
Proof.
  intros Hnm H. replace m with ((m - n) + n) by lia.
  rewrite <- skipn_skipn. now apply Forall_skipn_keep.
Qed.

Lemma nth_error_valid (l : list ASRSegment.t) n s :
  segments_valid l -> nth_error l n = Some s -> ASRSegment.valid s = true.
Proof.
  intros Hl Hn. apply nth_error_In in Hn.
  unfold segments_valid in Hl. rewrite Forall_forall in Hl. auto.
Qed.

Section Loop.
Variable uuid4 : nat -> UUID.
Variable segments : list ASRSegment.t.
Variable speaker_id : str.

(** *** The three paths of one iteration *)

Lemma normal_processing_ok st cur :
  ASRSegment.valid cur = true -> (0 <= index st)%Z ->
  normal_processing uuid4 speaker_id st cur
  = Ok (LoopState (i st + 1)
          (utterance_units st
           ++ [unit_of_segment (uuid4 (uuid_calls st)) cur speaker_id
                               (utterance_units st) (index st)])
          (index st + 1) (S (uuid_calls st))).
Proof.
  intros Hc Hi. unfold normal_processing.
  now rewrite create_utterance_unit_ok.
Qed.

Lemma incomplete_check_merge st cur next :
  ASRSegment.valid cur = true -> ASRSegment.valid next = true ->
  (0 <= index st)%Z ->
  nth_error segments (i st + 1) = Some next ->
  _is_filler_only (ASRSegment.text next) = false ->
  _has_incomplete_ending (ASRSegment.text cur) = true ->
  _is_short_pause (PyFloat.sub (ASRSegment.start_time next)
                               (ASRSegment.end_time cur)) = true ->
  incomplete_check uuid4 segments speaker_id st cur
  = Ok (LoopState (i st + 2)
          (utterance_units st
           ++ [unit_of_segment (uuid4 (uuid_calls st)) (merged_of cur next)
                               speaker_id (utterance_units st) (index st)])
          (index st + 1) (S (uuid_calls st))).
Proof.
  intros Hc Hn Hi Hnth Hf He Hp. unfold incomplete_check.
  assert (Hlt : (i st + 1 <? length segments)%nat = true).
  { apply Nat.ltb_lt. apply nth_error_Some. congruence. }
  rewrite Hlt. unfold getitem. rewrite Hnth. simpl.
  rewrite Hf, He, Hp. simpl.
  rewrite merge_segments_ok by assumption. simpl.
  rewrite create_utterance_unit_ok; [reflexivity| |assumption].
  now apply merged_of_valid.
Qed.

Lemma incomplete_check_next_filler st cur next :
  ASRSegment.valid cur = true -> (0 <= index st)%Z ->
  nth_error segments (i st + 1) = Some next ->
  _is_filler_only (ASRSegment.text next) = true ->
  incomplete_check uuid4 segments speaker_id st cur
  = normal_processing uuid4 speaker_id st cur.
Proof.
  intros Hc Hi Hnth Hf. unfold incomplete_check.
  destruct (i st + 1 <? length segments)%nat; [|reflexivity].
  unfold getitem. rewrite Hnth. simpl. now rewrite Hf.
Qed.

Lemma incomplete_check_complete st cur :
  _has_incomplete_ending (ASRSegment.text cur) = false ->
  incomplete_check uuid4 segments speaker_id st cur
  = normal_processing uuid4 speaker_id st cur.
Proof.
  intros He. unfold incomplete_check.
  destruct (i st + 1 <? length segments)%nat eqn:Hlt; [|reflexivity].
  unfold getitem.
  destruct (nth_error segments (i st + 1)) as [next|] eqn:Hn.
  - simpl. rewrite He. simpl. now destruct (negb _).
  - apply Nat.ltb_lt in Hlt. apply nth_error_None in Hn. lia.
Qed.

(** [incomplete_check] either merges with the next segment or processes
    the current one normally. *)
Lemma incomplete_check_cases st cur :
  segments_valid segments ->
  ASRSegment.valid cur = true -> (0 <= index st)%Z ->
  (exists next,
      nth_error segments (i st + 1) = Some next
      /\ incomplete_check uuid4 segments speaker_id st cur
         = Ok (LoopState (i st + 2)
                 (utterance_units st
                  ++ [unit_of_segment (uuid4 (uuid_calls st))
                        (merged_of cur next) speaker_id
                        (utterance_units st) (index st)])
                 (index st + 1) (S (uuid_calls st))))
  \/ incomplete_check uuid4 segments speaker_id st cur
     = Ok (LoopState (i st + 1)
             (utterance_units st
              ++ [unit_of_segment (uuid4 (uuid_calls st)) cur speaker_id
                                  (utterance_units st) (index st)])
             (index st + 1) (S (uuid_calls st))).
Proof.
  intros Hv Hc Hi.
  destruct (nth_error segments (i st + 1)) as [next|] eqn:Hn.
  - destruct (_is_filler_only (ASRSegment.text next)) eqn:Hf.
    + right. rewrite (incomplete_check_next_filler st cur next) by assumption.
      now apply normal_processing_ok.
    + destruct (_has_incomplete_ending (ASRSegment.text cur)) eqn:He.
      * destruct (_is_short_pause
                    (PyFloat.sub (ASRSegment.start_time next)
                                 (ASRSegment.end_time cur))) eqn:Hp.
        -- left. exists next. split; [reflexivity|].
           apply incomplete_check_merge; try assumption.
           eapply nth_error_valid; eauto.
        -- right. rewrite <- normal_processing_ok by assumption.
           unfold incomplete_check.
           destruct (i st + 1 <? length segments)%nat; [|reflexivity].
           unfold getitem. rewrite Hn. simpl. rewrite Hf, He, Hp. reflexivity.
      * right. rewrite incomplete_check_complete by assumption.
        now apply normal_processing_ok.
  - right. rewrite <- normal_processing_ok by assumption.
    unfold incomplete_check.
    destruct (i st + 1 <? length segments)%nat eqn:Hlt; [|reflexivity].
    apply Nat.ltb_lt in Hlt. apply nth_error_None in Hn. lia.
Qed.

Lemma loop_body_absorb st cur us last :
  nth_error segments (i st) = Some cur ->
  _is_filler_only (ASRSegment.text cur) = true ->
  utterance_units st = us ++ [last] ->
  UtteranceUnit.valid last = true ->
  loop_body uuid4 segments speaker_id st
  = Ok (LoopState (i st + 1) (us ++ [absorbed_of last cur])
                  (index st) (uuid_calls st)).
Proof.
  intros Hn Hf Hu Hv. unfold loop_body, getitem. rewrite Hn. simpl.
  rewrite Hf, Hu.
  assert (Hne : nonempty (us ++ [last]) = true) by (destruct us; reflexivity).
  rewrite Hne, getitem_last_snoc. simpl.
  rewrite merge_with_previous_ok by assumption. simpl.
  now rewrite setitem_last_snoc.
Qed.

Lemma loop_body_no_absorb st cur :
  nth_error segments (i st) = Some cur ->
  _is_filler_only (ASRSegment.text cur) = false \/ utterance_units st = [] ->
  loop_body uuid4 segments speaker_id st
  = incomplete_check uuid4 segments speaker_id st cur.
Proof.
  intros Hn H. unfold loop_body, getitem. rewrite Hn. simpl.
  destruct (_is_filler_only (ASRSegment.text cur)); [|reflexivity].
  destruct H as [H|H]; [discriminate|]. now rewrite H.
Qed.
End Loop.

Section Invariant.
Variable uuid4 : nat -> UUID.
Variable segments : list ASRSegment.t.
Variable speaker_id : str.
Hypothesis segments_ok : segments_valid segments.
Hypothesis segments_sorted : StronglySorted start_le segments.

Lemma loop_inv_init : loop_inv uuid4 segments (LoopState 0 [] 0 0).
Proof.
  constructor; simpl; try reflexivity; try constructor; try lia;
    try discriminate.
Qed.

(** Absorbing a filler keeps the invariant: the replaced unit keeps its
    start, pause fields, index and identifier. *)
Lemma loop_inv_absorb n us last cur idx calls :
  loop_inv uuid4 segments (LoopState n (us ++ [last]) idx calls) ->
  n < length segments ->
  loop_inv uuid4 segments
    (LoopState (n + 1) (us ++ [absorbed_of last cur]) idx calls).
Proof.
  intros [Hc Hp Hi Hk Hx Hd Hs Hb Hv Hl Hf Hg] Hn; simpl in *.
  assert (Hlen : length (us ++ [absorbed_of last cur]) = length (us ++ [last]))
    by (rewrite !length_app; reflexivity).
  assert (Hmap : forall {B} (f : UtteranceUnit.t -> B),
             f (absorbed_of last cur) = f last ->
             map f (us ++ [absorbed_of last cur]) = map f (us ++ [last])).
  { intros B f E. rewrite !map_app. simpl. now rewrite E. }
  apply Forall_app in Hv as [Hv1 Hv2]. inversion Hv2 as [|? ? Hvl _]; subst.
  apply Forall_app in Hl as [Hl1 Hl2]. inversion Hl2 as [|? ? Hll _]; subst.
  constructor; simpl.
  - lia.
  - intros _. destruct us; discriminate.
  - now rewrite Hlen.
  - now rewrite Hlen.
  - rewrite Hlen, Hmap; [exact Hx|reflexivity].
  - rewrite Hlen, Hmap; [exact Hd|reflexivity].
  - rewrite Hmap; [exact Hs|reflexivity].
  - rewrite Hmap; [|reflexivity].
    eapply Forall_impl; [|exact Hb].
    intros x Hxs. simpl in Hxs. apply Forall_skipn_later with n; [lia|exact Hxs].
  - apply Forall_app. split; [exact Hv1|].
    constructor; [|constructor]. now apply absorbed_of_valid.
  - apply Forall_app. split; [exact Hl1|].
    constructor; [|constructor]. exact Hll.
  - rewrite Hmap; [exact Hf|reflexivity].
  - intros x s Hx' Hs'. destruct us as [|y us]; simpl in *.
    + injection Hx' as <-. simpl. now apply Hg.
    + now apply Hg.
Qed.

(** Appending the unit built from a segment [s] that starts where the
    current segment does keeps the invariant, for a cursor moved forward. *)
Lemma loop_inv_append n m units idx calls cur s :
  loop_inv uuid4 segments (LoopState n units idx calls) ->
  nth_error segments n = Some cur ->
  n < m <= length segments ->
  ASRSegment.valid s = true ->
  ASRSegment.start_time s = ASRSegment.start_time cur ->
  loop_inv uuid4 segments
    (LoopState m
       (units ++ [unit_of_segment (uuid4 calls) s speaker_id units idx])
       (idx + 1) (S calls)).
Proof.
  intros [Hc Hp Hi Hk Hx Hd Hs Hb Hv Hl Hf Hg] Hnth Hm Hsv Hst; simpl in *.
  pose proof (skipn_nth_error_cons _ _ _ Hnth) as Hskip.
  assert (Hrest : Forall (fun t => fle (ASRSegment.start_time cur)
                                       (ASRSegment.start_time t))
                         (skipn (S n) segments)).
  { pose proof (StronglySorted_skipn_keep start_le segments n segments_sorted) as H.
    rewrite Hskip in H. inversion H; subst. assumption. }
  assert (Hlen : length (units ++ [unit_of_segment (uuid4 calls) s speaker_id units idx])
                 = S (length units)) by (rewrite length_app; simpl; lia).
  assert (Hidx : (0 <= idx)%Z) by lia.
  constructor; simpl.
  - lia.
  - intros _. destruct units; discriminate.
  - rewrite Hlen. lia.
  - rewrite Hlen. lia.
  - rewrite Hlen, seq_snoc_map, map_app, Hx. simpl. now rewrite Hi.
  - rewrite Hlen, seq_snoc_map, map_app, Hd. simpl. now rewrite Hk.
  - rewrite map_app. simpl. apply StronglySorted_snoc; [exact Hs|].
    eapply Forall_impl; [|exact Hb].
    intros x Hxs. simpl in Hxs. rewrite Hskip in Hxs.
    inversion Hxs; subst. now rewrite Hst.
  - rewrite map_app. apply Forall_app. split.
    + eapply Forall_impl; [|exact Hb].
      intros x Hxs. simpl in Hxs.
      apply Forall_skipn_later with n; [lia|exact Hxs].
    + constructor; [|constructor]. simpl. rewrite Hst.
      apply Forall_skipn_later with (S n); [lia|exact Hrest].
  - apply Forall_app. split; [exact Hv|].
    constructor; [|constructor]. now apply unit_of_segment_valid.
  - apply Forall_app. split; [exact Hl|].
    constructor; [|constructor]. reflexivity.
  - intros p. destruct units as [|y units]; simpl.
    + now intros [= <-].
    + apply Hf.
  - intros x t Hx' Ht'. destruct units as [|y units]; simpl in *.
    + injection Hx' as <-. simpl. rewrite Hst.
      assert (n = 0) as -> by (destruct n; [reflexivity|specialize (Hp ltac:(lia)); congruence]).
      destruct segments; simpl in *; congruence.
    + now apply Hg.
Qed.

(** One iteration from a state that satisfies the invariant succeeds,
    keeps the invariant and moves the cursor forward. *)
Lemma loop_body_inv st :
  loop_inv uuid4 segments st -> i st < length segments ->
  exists st',
    loop_body uuid4 segments speaker_id st = Ok st'
    /\ loop_inv uuid4 segments st' /\ i st < i st'.
Proof.
  intros Hinv Hlt. destruct st as [n units idx calls]. simpl in Hlt.
  destruct (nth_error segments n) as [cur|] eqn:Hnth;
    [|apply nth_error_None in Hnth; lia].
  pose proof (nth_error_valid _ _ _ segments_ok Hnth) as Hcv.
  assert (Hidx : (0 <= idx)%Z) by (pose proof (inv_index _ _ _ Hinv) as Hix; simpl in Hix; lia).
  assert (Hfall :
    exists st',
      incomplete_check uuid4 segments speaker_id (LoopState n units idx calls) cur
      = Ok st'
      /\ loop_inv uuid4 segments st' /\ n < i st').
  { destruct (incomplete_check_cases uuid4 segments speaker_id
                (LoopState n units idx calls) cur segments_ok Hcv Hidx)
      as [(next & Hnx & E)|E]; simpl in *.
    - eexists. split; [exact E|]. split; [|simpl; lia].
      apply loop_inv_append with (n := n) (cur := cur); auto.
      + assert (n + 1 < length segments) by (apply nth_error_Some; congruence).
        lia.
      + apply merged_of_valid; [assumption|].
        eapply nth_error_valid; eauto.
    - eexists. split; [exact E|]. split; [|simpl; lia].
      apply loop_inv_append with (n := n) (cur := cur); auto. lia. }
  destruct (_is_filler_only (ASRSegment.text cur)) eqn:Hf.
  - destruct (nonempty units) eqn:Hne.
    + destruct (nonempty_snoc _ Hne) as (us & last & ->).
      assert (Hlv : UtteranceUnit.valid last = true).
      { pose proof (inv_valid _ _ _ Hinv) as Hv. simpl in Hv.
        apply Forall_app in Hv as [_ Hv]. now inversion Hv. }
      eexists. split.
      * apply loop_body_absorb with (cur := cur) (us := us) (last := last);
          simpl; auto.
      * split; [|simpl; lia]. now apply loop_inv_absorb.
    + apply nonempty_false in Hne.
      rewrite (loop_body_no_absorb uuid4 segments speaker_id _ cur) by (simpl; auto).
      exact Hfall.
  - rewrite (loop_body_no_absorb uuid4 segments speaker_id _ cur) by (simpl; auto).
    exact Hfall.
Qed.

(** The loop returns, with enough fuel, the working list of a final state
    that satisfies the invariant. *)
Lemma while_loop_inv fuel st :
  loop_inv uuid4 segments st -> length segments - i st <= fuel ->
  exists st',
    while_loop uuid4 fuel segments speaker_id st = Ok (utterance_units st')
    /\ loop_inv uuid4 segments st' /\ i st' = length segments.
Proof.
  revert st. induction fuel as [|fuel IH]; intros st Hinv Hfuel.
  - exists st. simpl.
    assert (E : (i st <? length segments)%nat = false) by (apply Nat.ltb_ge; lia).
    rewrite E. split; [reflexivity|]. split; [exact Hinv|].
    pose proof (inv_cursor _ _ _ Hinv). lia.
  - simpl. destruct (i st <? length segments)%nat eqn:E.
    + apply Nat.ltb_lt in E.
      destruct (loop_body_inv st Hinv E) as (st1 & Hb & Hinv1 & Hlt).
      rewrite Hb. simpl. apply IH; [exact Hinv1|lia].
    + exists st. split; [reflexivity|]. split; [exact Hinv|].
      apply Nat.ltb_ge in E. pose proof (inv_cursor _ _ _ Hinv). lia.
Qed.

End Invariant.

(** [structure] returns on every list of validated segments, and what it
    returns is the working list of a final loop state. *)
Lemma structure_inv uuid4 (asr_result : ASRResult.t) (speaker_id : str) :
  segments_valid (ASRResult.segments asr_result) ->
  exists st,
    structure uuid4 asr_result speaker_id = Ok (utterance_units st)
    /\ loop_inv uuid4 (sorted_by_start (ASRResult.segments asr_result)) st
    /\ i st = length (ASRResult.segments asr_result).
Proof.
  intros Hv. unfold structure.
  set (segs := sorted_by_start (ASRResult.segments asr_result)).
  assert (Hsv : segments_valid segs) by now apply sorted_by_start_Forall.
  assert (Hss : StronglySorted start_le segs) by now apply sorted_by_start_sorted.
  assert (Hlen : length segs = length (ASRResult.segments asr_result))
    by apply sorted_by_start_length.
  destruct (nonempty segs) eqn:Hne; simpl.
  - destruct (while_loop_inv uuid4 segs speaker_id Hsv Hss (length segs)
                (LoopState 0 [] 0 0) (loop_inv_init uuid4 segs))
      as (st & Hw & Hinv & Hi); [simpl; lia|].
    exists st. split; [exact Hw|]. split; [exact Hinv|]. congruence.
  - apply nonempty_false in Hne. exists (LoopState 0 [] 0 0).
    split; [reflexivity|]. split; [apply loop_inv_init|].
    simpl. rewrite <- Hlen, Hne. reflexivity.
Qed.

(** ** The walk: what one iteration does to the working list, and what
       the remaining iterations can still change *)

Lemma structure_is_while_loop uuid4 (asr_result : ASRResult.t) (speaker_id : str) :
  structure uuid4 asr_result speaker_id
  = while_loop uuid4
      (length (sorted_by_start (ASRResult.segments asr_result)))
      (sorted_by_start (ASRResult.segments asr_result)) speaker_id
      (LoopState 0 [] 0 0).
Proof.
  unfold structure.
  destruct (sorted_by_start (ASRResult.segments asr_result)); reflexivity.
Qed.

Lemma nth_error_snoc_last {A} (l : list A) (x : A) (tail : list A) :
  nth_error (l ++ x :: tail) (length l) = Some x.
Proof.
  induction l as [|y l IH]; simpl; [reflexivity|exact IH].
Qed.

Section Walk.
Variable uuid4 : nat -> UUID.
Variable segments : list ASRSegment.t.
Variable speaker_id : str.
Hypothesis segments_ok : segments_valid segments.
Hypothesis segments_sorted : StronglySorted start_le segments.

(** An iteration either replaces the last unit by the one that absorbed the
    current (filler-only) segment, or appends one unit. *)
Lemma loop_body_shape st cur :
  loop_inv uuid4 segments st ->
  nth_error segments (i st) = Some cur ->
  exists st',
    loop_body uuid4 segments speaker_id st = Ok st'
    /\ loop_inv uuid4 segments st' /\ i st < i st'
    /\ ((_is_filler_only (ASRSegment.text cur) = true
         /\ exists us x,
              utterance_units st = us ++ [x]
              /\ utterance_units st' = us ++ [absorbed_of x cur]
              /\ i st' = i st + 1)
        \/ ((_is_filler_only (ASRSegment.text cur) = false
             \/ utterance_units st = [])
            /\ exists y, utterance_units st' = utterance_units st ++ [y])).
Proof.
  intros Hinv Hnth.
  assert (Hlt : i st < length segments) by (apply nth_error_Some; congruence).
  destruct (loop_body_inv uuid4 segments speaker_id segments_ok segments_sorted
              st Hinv Hlt) as (st' & Hb & Hinv' & Hadv).
  exists st'. split; [exact Hb|]. split; [exact Hinv'|]. split; [exact Hadv|].
  pose proof (nth_error_valid _ _ _ segments_ok Hnth) as Hcv.
  assert (Hidx : (0 <= index st)%Z)
    by (rewrite (inv_index _ _ _ Hinv); lia).
  assert (Hfall :
    loop_body uuid4 segments speaker_id st
    = incomplete_check uuid4 segments speaker_id st cur ->
    exists y, utterance_units st' = utterance_units st ++ [y]).
  { intros E. rewrite E in Hb.
    destruct (incomplete_check_cases uuid4 segments speaker_id st cur
                segments_ok Hcv Hidx) as [(next & _ & E')|E'];
      rewrite E' in Hb; injection Hb as <-; simpl; eauto. }
  destruct (_is_filler_only (ASRSegment.text cur)) eqn:Hf.
  - destruct (nonempty (utterance_units st)) eqn:Hne.
    + left. split; [reflexivity|].
      destruct (nonempty_snoc _ Hne) as (us & x & Hu).
      exists us, x. split; [exact Hu|].
      assert (Hxv : UtteranceUnit.valid x = true).
      { pose proof (inv_valid _ _ _ Hinv) as Hv. rewrite Hu in Hv.
        apply Forall_app in Hv as [_ Hv]. now inversion Hv. }
      rewrite (loop_body_absorb uuid4 segments speaker_id st cur us x
                 Hnth Hf Hu Hxv) in Hb.
      injection Hb as <-. simpl. split; reflexivity.
    + right. apply nonempty_false in Hne. split; [now right|].
      apply Hfall. apply loop_body_no_absorb; [exact Hnth|now right].
  - right. split; [now left|].
    apply Hfall. apply loop_body_no_absorb; [exact Hnth|now left].
Qed.

Lemma reachable_inv st :
  reachable uuid4 segments speaker_id st -> loop_inv uuid4 segments st.
Proof.
  induction 1 as [|st st' Hr IH Hlt Hb].
  - apply loop_inv_init.
  - destruct (loop_body_inv uuid4 segments speaker_id segments_ok segments_sorted
                st IH Hlt) as (st'' & Hb' & Hinv & _).
    congruence.
Qed.

(** From a state of the walk, the loop started with the fuel that is left
    returns what the whole loop returns. *)
Lemma reachable_while_loop st :
  reachable uuid4 segments speaker_id st ->
  exists fuel,
    length segments - i st <= fuel
    /\ while_loop uuid4 (length segments) segments speaker_id (LoopState 0 [] 0 0)
       = while_loop uuid4 fuel segments speaker_id st.
Proof.
  induction 1 as [|st st' Hr (fuel & Hfuel & IH) Hlt Hb].
  - exists (length segments). split; [simpl; lia|reflexivity].
  - destruct fuel as [|fuel]; [lia|].
    exists fuel.
    pose proof (reachable_inv st Hr) as Hinv.
    destruct (loop_body_inv uuid4 segments speaker_id segments_ok segments_sorted
                st Hinv Hlt) as (st'' & Hb' & _ & Hadv).
    assert (st'' = st') by congruence. subst st''.
    split; [lia|].
    rewrite IH. simpl.
    apply Nat.ltb_lt in Hlt. rewrite Hlt, Hb. reflexivity.
Qed.

(** Units in front of the last one are never touched again. *)
Lemma while_loop_frozen fuel st pre z :
  loop_inv uuid4 segments st -> length segments - i st <= fuel ->
  utterance_units st = pre ++ [z] ->
  exists tail,
    while_loop uuid4 fuel segments speaker_id st = Ok (pre ++ tail).
Proof.
  revert st pre z. induction fuel as [|fuel IH]; intros st pre z Hinv Hfuel Hu.
  - simpl. assert (E : (i st <? length segments)%nat = false)
      by (apply Nat.ltb_ge; lia).
    rewrite E, Hu. eauto.
  - simpl. destruct (i st <? length segments)%nat eqn:E; [|rewrite Hu; eauto].
    apply Nat.ltb_lt in E.
    destruct (nth_error segments (i st)) as [cur|] eqn:Hnth;
      [|apply nth_error_None in Hnth; lia].
    destruct (loop_body_shape st cur Hinv Hnth)
      as (st' & Hb & Hinv' & Hadv & Hshape).
    rewrite Hb. simpl.
    destruct Hshape as [(_ & us & x & Hu1 & Hu2 & _)|(_ & y & Hu2)].
    + rewrite Hu in Hu1. apply app_inj_tail in Hu1 as [<- _].
      apply (IH st' pre (absorbed_of x cur)); [exact Hinv'|lia|exact Hu2].
    + rewrite Hu in Hu2.
      destruct (IH st' (pre ++ [z]) y Hinv' ltac:(lia) Hu2) as (tail & Ht).
      exists (z :: tail). rewrite Ht, <- app_assoc. reflexivity.
Qed.

(** The last unit absorbs exactly the filler-only segments that come next,
    and is then never touched again. *)
Lemma while_loop_absorbs fuel st us x :
  loop_inv uuid4 segments st -> length segments - i st <= fuel ->
  utterance_units st = us ++ [x] ->
  exists final,
    while_loop uuid4 fuel segments speaker_id st = Ok final
    /\ nth_error final (length us)
       = Some (absorb_all x (leading_fillers (skipn (i st) segments))).
Proof.
  revert st x. induction fuel as [|fuel IH]; intros st x Hinv Hfuel Hu.
  - simpl. assert (E : (i st <? length segments)%nat = false)
      by (apply Nat.ltb_ge; lia).
    rewrite E, Hu. eexists. split; [reflexivity|].
    rewrite skipn_all2 by lia. simpl. apply nth_error_snoc_last.
  - simpl. destruct (i st <? length segments)%nat eqn:E.
    + apply Nat.ltb_lt in E.
      destruct (nth_error segments (i st)) as [cur|] eqn:Hnth;
        [|apply nth_error_None in Hnth; lia].
      destruct (loop_body_shape st cur Hinv Hnth)
        as (st' & Hb & Hinv' & Hadv & Hshape).
      rewrite Hb. simpl.
      rewrite (skipn_nth_error_cons _ _ _ Hnth). simpl.
      destruct Hshape as [(Hf & us' & x' & Hu1 & Hu2 & Hi)|(Hf & y & Hu2)].
      * rewrite Hu in Hu1. apply app_inj_tail in Hu1 as [<- <-].
        rewrite Hf.
        destruct (IH st' (absorbed_of x cur) Hinv' ltac:(lia) Hu2)
          as (final & Hw & Hn).
        exists final. split; [exact Hw|].
        rewrite Hn, Hi, Nat.add_1_r. reflexivity.
      * destruct Hf as [Hf|Hf]; [|rewrite Hu in Hf; destruct us; discriminate].
        rewrite Hf. rewrite Hu in Hu2.
        destruct (while_loop_frozen fuel st' (us ++ [x]) y Hinv' ltac:(lia) Hu2)
          as (tail & Ht).
        exists ((us ++ [x]) ++ tail). split; [exact Ht|].
        rewrite <- app_assoc. simpl. apply nth_error_snoc_last.
    + apply Nat.ltb_ge in E. rewrite Hu. eexists. split; [reflexivity|].
      rewrite skipn_all2 by lia. simpl. apply nth_error_snoc_last.
Qed.

End Walk.

(** What [structure] returns at the position of the last unit of a state
    of its walk. *)
Lemma structure_after_reachable uuid4 (asr_result : ASRResult.t)
    (speaker_id : str) st us x :
  segments_valid (ASRResult.segments asr_result) ->
  reachable uuid4 (sorted_by_start (ASRResult.segments asr_result))
            speaker_id st ->
  utterance_units st = us ++ [x] ->
  exists units,
    structure uuid4 asr_result speaker_id = Ok units
    /\ nth_error units (length us)
       = Some (absorb_all x
                 (leading_fillers
                    (skipn (i st)
                       (sorted_by_start (ASRResult.segments asr_result))))).
Proof.
  intros Hv Hr Hu.
  set (segs := sorted_by_start (ASRResult.segments asr_result)) in *.
  assert (Hsv : segments_valid segs) by now apply sorted_by_start_Forall.
  assert (Hss : StronglySorted start_le segs) by now apply sorted_by_start_sorted.
  rewrite structure_is_while_loop. fold segs.
  destruct (reachable_while_loop uuid4 segs speaker_id Hsv Hss st Hr)
    as (fuel & Hfuel & ->).
  apply while_loop_absorbs; auto.
  now apply (reachable_inv uuid4 segs speaker_id Hsv Hss).
Qed.

(** ** The pause classifier *)

Lemma classify_pause_level_spec (g : float) :
  PyFloat.is_nan g = false ->
  (_classify_pause_level g = SHORT <-> PyFloat.ltb g PAUSE_THRESHOLD_SHORT = true)
  /\ (_classify_pause_level g = NORMAL
      <-> PyFloat.leb PAUSE_THRESHOLD_SHORT g = true
          /\ PyFloat.ltb g PAUSE_THRESHOLD_LONG = true)
  /\ (_classify_pause_level g = LONG <-> PyFloat.leb PAUSE_THRESHOLD_LONG g = true).
Proof.
  intros Hg. unfold _classify_pause_level.
  destruct (PyFloat.ltb g PAUSE_THRESHOLD_SHORT) eqn:E1;
    [|destruct (PyFloat.ltb g PAUSE_THRESHOLD_LONG) eqn:E2].
  - split; [tauto|]. split; split; try discriminate.
    + intros [H _]. apply leb_ltb_false in H. congruence.
    + intros H. apply ltb_leb in E1.
      pose proof (leb_trans _ _ _ H E1) as F. discriminate F.
  - split; [split; discriminate|]. split; [split; [intros _|reflexivity]|].
    + split; [|reflexivity]. now apply ltb_false_leb.
    + split; [discriminate|]. intros H. apply leb_ltb_false in H. congruence.
  - split; [split; discriminate|]. split; [split; [discriminate|intros [_ H]; discriminate]|].
    split; [intros _|reflexivity]. now apply ltb_false_leb.
Qed.

(** C6.  The pause classifier is a total function; on a non-negative gap
    [g] it answers SHORT exactly when [g < 0.7], NORMAL exactly when
    [0.7 <= g < 2.0] and LONG exactly when [2.0 <= g]: a gap equal to a
    threshold belongs to the tier above it.  The two thresholds are the
    floats of the literals [0.7] and [2.0]; [0.69] is SHORT, [0.7] is
    NORMAL, [1.99] is NORMAL and [2.0] is LONG. *)
Theorem classify_pause_level_boundaries (g : float)
    (Hg : fle PyFloat.zero g) :
  ((_classify_pause_level g = SHORT
    <-> PyFloat.ltb g PAUSE_THRESHOLD_SHORT = true)
   /\ (_classify_pause_level g = NORMAL
       <-> PyFloat.leb PAUSE_THRESHOLD_SHORT g = true
           /\ PyFloat.ltb g PAUSE_THRESHOLD_LONG = true)
   /\ (_classify_pause_level g = LONG
       <-> PyFloat.leb PAUSE_THRESHOLD_LONG g = true))
  /\ PAUSE_THRESHOLD_SHORT = PyFloat.dec 7 1
  /\ PAUSE_THRESHOLD_LONG = PyFloat.dec 20 1
  /\ _classify_pause_level (PyFloat.dec 69 2) = SHORT
  /\ _classify_pause_level (PyFloat.dec 7 1) = NORMAL
  /\ _classify_pause_level (PyFloat.dec 199 2) = NORMAL
  /\ _classify_pause_level (PyFloat.dec 20 1) = LONG.
Proof.
  split.
  - apply classify_pause_level_spec. now apply leb_not_nan_r with PyFloat.zero.
  - repeat split; vm_compute; reflexivity.
Qed.

Lemma classify_pause_level_boundaries_witness :
  fle PyFloat.zero Demo.f0_69
  /\ (_classify_pause_level Demo.f0_69 = SHORT
      <-> PyFloat.ltb Demo.f0_69 PAUSE_THRESHOLD_SHORT = true).
Proof.
  assert (H : fle PyFloat.zero Demo.f0_69) by reflexivity.
  split; [exact H|].
  exact (proj1 (proj1 (classify_pause_level_boundaries Demo.f0_69 H))).
Defined.

(** C9.  For the empty segment list and any speaker id (whatever the
    other fields of the ASR result are), [structure] returns the empty list
    of units; it raises nothing. *)
Theorem structure_empty (uuid4 : nat -> UUID) (asr_id audio_id : UUID)
    (language transcript : str) (created_at : Z)
    (engine_name model_name : option str) (speaker_id : str) :
  structure uuid4
    (ASRResult.Build asr_id audio_id language transcript [] created_at
                     engine_name model_name)
    speaker_id
  = Ok [].
Proof. reflexivity. Qed.

(** C1.  For every list of segments (each one a validated [ASRSegment])
    and every speaker id, [structure] returns a list of units whose
    [start_time] values are non-decreasing in list order (each one is [<=]
    every later one) and whose [index_in_session] values are exactly
    [0, 1, ..., n-1] in list order, [n] being the number of units. *)
Theorem structure_ordering (uuid4 : nat -> UUID) (asr_result : ASRResult.t)
    (speaker_id : str)
    (Hvalid : segments_valid (ASRResult.segments asr_result)) :
  exists units,
    structure uuid4 asr_result speaker_id = Ok units
    /\ StronglySorted fle (map UtteranceUnit.start_time units)
    /\ map UtteranceUnit.index_in_session units
       = map Z.of_nat (seq 0 (length units)).
Proof.
  destruct (structure_inv uuid4 asr_result speaker_id Hvalid)
    as (st & Hs & Hinv & _).
  exists (utterance_units st). split; [exact Hs|]. split.
  - apply (inv_sorted _ _ _ Hinv).
  - apply (inv_indices _ _ _ Hinv).
Qed.

Lemma structure_ordering_witness :
  segments_valid (ASRResult.segments (Demo.asr_result Demo.chain))
  /\ exists units,
       structure Demo.uuid4 (Demo.asr_result Demo.chain) Demo.speaker = Ok units
       /\ StronglySorted fle (map UtteranceUnit.start_time units)
       /\ map UtteranceUnit.index_in_session units
          = map Z.of_nat (seq 0 (length units)).
Proof.
  assert (H : segments_valid (ASRResult.segments (Demo.asr_result Demo.chain)))
    by (repeat constructor).
  split; [exact H|].
  exact (structure_ordering Demo.uuid4 (Demo.asr_result Demo.chain) Demo.speaker H).
Defined.

(** C7.  For every input, [structure] returns a list of units in which no
    [pause_before] is negative ([0.0 <= pause_before] holds, and
    [pause_before < 0.0] does not), overlapping segments included; and when
    the input is not empty the returned list has a first unit, whose
    [pause_before] is [0.0].  On the overlapping segments 0.0-2.0 and
    1.0-3.0 both units have [pause_before = 0.0]. *)
Theorem structure_pause_before (uuid4 : nat -> UUID)
    (asr_result : ASRResult.t) (speaker_id : str)
    (Hvalid : segments_valid (ASRResult.segments asr_result)) :
  exists units,
    structure uuid4 asr_result speaker_id = Ok units
    /\ (ASRResult.segments asr_result <> [] ->
        exists first rest,
          units = first :: rest
          /\ UtteranceUnit.pause_before first = PyFloat.zero)
    /\ Forall (fun x =>
                 PyFloat.leb PyFloat.zero (UtteranceUnit.pause_before x) = true
                 /\ PyFloat.ltb (UtteranceUnit.pause_before x) PyFloat.zero = false)
              units
    /\ exists overlapped,
         structure Demo.uuid4 (Demo.asr_result Demo.overlapping) Demo.speaker
         = Ok overlapped
         /\ map UtteranceUnit.pause_before overlapped
            = [PyFloat.zero; PyFloat.zero].
Proof.
  destruct (structure_inv uuid4 asr_result speaker_id Hvalid)
    as (st & Hs & Hinv & Hi).
  exists (utterance_units st). split; [exact Hs|].
  split; [|split; [|eexists; split; vm_compute; reflexivity]].
  - intros Hne.
    assert (Hpos : 0 < i st).
    { rewrite Hi. destruct (ASRResult.segments asr_result); [congruence|simpl; lia]. }
    pose proof (inv_progress _ _ _ Hinv Hpos) as Hu.
    pose proof (inv_first_pause _ _ _ Hinv) as Hf.
    destruct (utterance_units st) as [|first rest]; [congruence|].
    exists first, rest. split; [reflexivity|]. now apply Hf.
  - eapply Forall_impl; [|exact (inv_valid _ _ _ Hinv)].
    intros x Hx. destruct (unit_valid_fields _ Hx) as (_ & _ & Hp & _).
    split; [exact Hp|now apply leb_ltb_false].
Qed.

Lemma structure_pause_before_witness :
  segments_valid (ASRResult.segments (Demo.asr_result Demo.overlapping))
  /\ exists units,
       structure Demo.uuid4 (Demo.asr_result Demo.overlapping) Demo.speaker
       = Ok units
       /\ Forall (fun x =>
                    PyFloat.leb PyFloat.zero (UtteranceUnit.pause_before x) = true
                    /\ PyFloat.ltb (UtteranceUnit.pause_before x) PyFloat.zero = false)
                 units.
Proof.
  assert (H : segments_valid
                (ASRResult.segments (Demo.asr_result Demo.overlapping)))
    by (repeat constructor).
  split; [exact H|].
  destruct (structure_pause_before Demo.uuid4
              (Demo.asr_result Demo.overlapping) Demo.speaker H)
    as (units & Hs & _ & Hp & _).
  exists units. split; [exact Hs|exact Hp].
Defined.

(** C10.  For every unit of the list [structure] returns, [pause_level] is
    the pause classifier applied to that unit's own [pause_before]:
    it is SHORT iff [pause_before < 0.7], NORMAL iff
    [0.7 <= pause_before < 2.0], and LONG iff [2.0 <= pause_before].
    Units that absorbed a filler are among them: absorption copies both
    fields. *)
Theorem structure_pause_level_consistent (uuid4 : nat -> UUID)
    (asr_result : ASRResult.t) (speaker_id : str)
    (Hvalid : segments_valid (ASRResult.segments asr_result)) :
  exists units,
    structure uuid4 asr_result speaker_id = Ok units
    /\ Forall (fun x =>
         let p := UtteranceUnit.pause_before x in
         UtteranceUnit.pause_level x = _classify_pause_level p
         /\ (UtteranceUnit.pause_level x = SHORT
             <-> PyFloat.ltb p PAUSE_THRESHOLD_SHORT = true)
         /\ (UtteranceUnit.pause_level x = NORMAL
             <-> PyFloat.leb PAUSE_THRESHOLD_SHORT p = true
                 /\ PyFloat.ltb p PAUSE_THRESHOLD_LONG = true)
         /\ (UtteranceUnit.pause_level x = LONG
             <-> PyFloat.leb PAUSE_THRESHOLD_LONG p = true))
       units.
Proof.
  destruct (structure_inv uuid4 asr_result speaker_id Hvalid)
    as (st & Hs & Hinv & _).
  exists (utterance_units st). split; [exact Hs|].
  pose proof (inv_valid _ _ _ Hinv) as Hv.
  pose proof (inv_level _ _ _ Hinv) as Hl.
  rewrite Forall_forall in *. intros x Hx. simpl.
  specialize (Hv x Hx). specialize (Hl x Hx).
  destruct (unit_valid_fields _ Hv) as (_ & _ & Hp & _).
  split; [exact Hl|]. rewrite Hl.
  apply classify_pause_level_spec. now apply leb_not_nan_r with PyFloat.zero.
Qed.

Lemma structure_pause_level_consistent_witness :
  segments_valid (ASRResult.segments (Demo.asr_result Demo.incomplete_pair))
  /\ exists units,
       structure Demo.uuid4 (Demo.asr_result Demo.incomplete_pair)
                 Demo.speaker = Ok units
       /\ Forall (fun x => UtteranceUnit.pause_level x
                           = _classify_pause_level (UtteranceUnit.pause_before x))
                 units.
Proof.
  assert (H : segments_valid
                (ASRResult.segments (Demo.asr_result Demo.incomplete_pair)))
    by (repeat constructor).
  split; [exact H|].
  destruct (structure_pause_level_consistent Demo.uuid4
              (Demo.asr_result Demo.incomplete_pair) Demo.speaker H)
    as (units & Hs & Hp).
  exists units. split; [exact Hs|].
  eapply Forall_impl; [|exact Hp]. intros x Hx. exact (proj1 Hx).
Defined.

(** ** The merge rules inside the walk *)

Lemma str_eqb_eq (a b : str) : PyStr.eqb a b = true -> a = b.
Proof.
  revert b. induction a as [|x a IH]; intros [|y b] H; simpl in H;
    try discriminate; [reflexivity|].
  apply andb_prop in H as [Hx Hab].
  apply N.eqb_eq in Hx. subst. f_equal. now apply IH.
Qed.

(** No filler word ends with an incomplete ending. *)
Lemma filler_has_complete_ending (text : str) :
  _is_filler_only text = true -> _has_incomplete_ending text = false.
Proof.
  unfold _is_filler_only, _has_incomplete_ending, PyStr.mem, FILLER_WORDS.
  cbv zeta. intros H. simpl existsb in H.
  repeat (apply orb_prop in H as [H|H];
          [apply str_eqb_eq in H; rewrite H; vm_compute; reflexivity|]).
  discriminate.
Qed.

Lemma incomplete_ending_not_filler (text : str) :
  _has_incomplete_ending text = true -> _is_filler_only text = false.
Proof.
  intros H. destruct (_is_filler_only text) eqn:E; [|reflexivity].
  apply filler_has_complete_ending in E. congruence.
Qed.

(** Absorbing fillers leaves the identity, the start, the pause and the
    index of a unit as they are. *)
Lemma absorb_all_keeps (x : UtteranceUnit.t) (fillers : list ASRSegment.t) :
  UtteranceUnit.utterance_id (absorb_all x fillers) = UtteranceUnit.utterance_id x
  /\ UtteranceUnit.start_time (absorb_all x fillers) = UtteranceUnit.start_time x
  /\ UtteranceUnit.pause_before (absorb_all x fillers)
     = UtteranceUnit.pause_before x
  /\ UtteranceUnit.pause_level (absorb_all x fillers) = UtteranceUnit.pause_level x
  /\ UtteranceUnit.index_in_session (absorb_all x fillers)
     = UtteranceUnit.index_in_session x.
Proof.
  unfold absorb_all. revert x.
  induction fillers as [|f fillers IH]; intros x; simpl; [repeat split|].
  destruct (IH (absorbed_of x f)) as (H1 & H2 & H3 & H4 & H5).
  repeat split; assumption.
Qed.

Lemma leading_fillers_none (l : list ASRSegment.t) :
  (forall s, hd_error l = Some s -> _is_filler_only (ASRSegment.text s) = false) ->
  leading_fillers l = [].
Proof.
  destruct l as [|s l]; [reflexivity|]. simpl. intros H.
  now rewrite (H s eq_refl).
Qed.

Lemma hd_error_skipn {A} (l : list A) (n : nat) :
  hd_error (skipn n l) = nth_error l n.
Proof.
  revert n. induction l as [|x l IH]; intros [|n]; simpl; auto.
Qed.

Section Rules.
Variable uuid4 : nat -> UUID.
Variable segments : list ASRSegment.t.
Variable speaker_id : str.
Hypothesis segments_ok : segments_valid segments.

(** The iteration at an incomplete ending followed, within a short pause,
    by a segment that is not filler-only. *)
Lemma loop_body_merge st current next :
  (0 <= index st)%Z ->
  nth_error segments (i st) = Some current ->
  nth_error segments (i st + 1) = Some next ->
  _has_incomplete_ending (ASRSegment.text current) = true ->
  _is_filler_only (ASRSegment.text next) = false ->
  _is_short_pause (PyFloat.sub (ASRSegment.start_time next)
                               (ASRSegment.end_time current)) = true ->
  loop_body uuid4 segments speaker_id st
  = Ok (LoopState (i st + 2)
          (utterance_units st
           ++ [unit_of_segment (uuid4 (uuid_calls st)) (merged_of current next)
                               speaker_id (utterance_units st) (index st)])
          (index st + 1) (S (uuid_calls st))).
Proof.
  intros Hi Hc Hn He Hf Hp.
  rewrite (loop_body_no_absorb uuid4 segments speaker_id st current Hc)
    by (left; now apply incomplete_ending_not_filler).
  apply incomplete_check_merge with (next := next); auto;
    eapply nth_error_valid; eauto.
Qed.

(** The iteration at an incomplete ending followed by a filler-only
    segment, and the iteration after it. *)
Lemma loop_body_filler_next st current filler :
  (0 <= index st)%Z ->
  nth_error segments (i st) = Some current ->
  nth_error segments (i st + 1) = Some filler ->
  _has_incomplete_ending (ASRSegment.text current) = true ->
  _is_filler_only (ASRSegment.text filler) = true ->
  let own := unit_of_segment (uuid4 (uuid_calls st)) current speaker_id
                             (utterance_units st) (index st) in
  let st1 := LoopState (i st + 1) (utterance_units st ++ [own])
                       (index st + 1) (S (uuid_calls st)) in
  loop_body uuid4 segments speaker_id st = Ok st1
  /\ loop_body uuid4 segments speaker_id st1
     = Ok (LoopState (i st + 2)
             (utterance_units st ++ [absorbed_of own filler])
             (index st + 1) (S (uuid_calls st))).
Proof.
  intros Hi Hc Hn He Hf own st1.
  pose proof (nth_error_valid _ _ _ segments_ok Hc) as Hcv.
  split.
  - rewrite (loop_body_no_absorb uuid4 segments speaker_id st current Hc)
      by (left; now apply incomplete_ending_not_filler).
    rewrite (incomplete_check_next_filler uuid4 segments speaker_id st
               current filler) by assumption.
    now apply normal_processing_ok.
  - rewrite (loop_body_absorb uuid4 segments speaker_id st1 filler
               (utterance_units st) own); simpl; auto.
    + replace (i st + 1 + 1) with (i st + 2) by lia. reflexivity.
    + now apply unit_of_segment_valid.
Qed.

End Rules.

(** C5, amended.  Whenever the walk of [structure] has its cursor at a
    segment [current] (one that no earlier merge has consumed) whose
    stripped text ends with an incomplete ending, the next segment [next]
    exists and is not filler-only, and
    [next.start_time - current.end_time < 0.7], the iteration merges the
    two: it appends one unit [merged] that starts where [current] starts,
    ends where [next] ends, has the two texts joined by a space (and
    stripped) and carries the running index, and it moves the cursor by two
    (both segments consumed) and the index by one.  [structure] then
    returns a list that holds this unit at the position of that index,
    after it absorbed the filler-only segments that may directly follow
    (as it is when none follows).  On the two segments "今日は晴れたので"
    0.0-1.0 and "出かけました" 1.3-2.0, [structure] returns exactly one
    unit, with text "今日は晴れたので 出かけました", start 0.0 and end 2.0. *)
Theorem incomplete_ending_merge (uuid4 : nat -> UUID)
    (asr_result : ASRResult.t) (speaker_id : str)
    (segments : list ASRSegment.t) (st : loop_state)
    (current next : ASRSegment.t)
    (Hvalid : segments_valid (ASRResult.segments asr_result))
    (Hsegments : segments = sorted_by_start (ASRResult.segments asr_result))
    (Hwalk : reachable uuid4 segments speaker_id st)
    (Hcurrent : nth_error segments (i st) = Some current)
    (Hnext : nth_error segments (i st + 1) = Some next)
    (Hending : _has_incomplete_ending (ASRSegment.text current) = true)
    (Hnot_filler : _is_filler_only (ASRSegment.text next) = false)
    (Hshort : PyFloat.ltb (PyFloat.sub (ASRSegment.start_time next)
                                       (ASRSegment.end_time current))
                          PAUSE_THRESHOLD_SHORT = true) :
  (exists merged,
      loop_body uuid4 segments speaker_id st
      = Ok (LoopState (i st + 2) (utterance_units st ++ [merged])
                      (index st + 1) (S (uuid_calls st)))
      /\ UtteranceUnit.text merged
         = PyStr.strip (ASRSegment.text current ++ u " " ++ ASRSegment.text next)
      /\ UtteranceUnit.start_time merged = ASRSegment.start_time current
      /\ UtteranceUnit.end_time merged = ASRSegment.end_time next
      /\ UtteranceUnit.duration merged
         = PyFloat.sub (ASRSegment.end_time next) (ASRSegment.start_time current)
      /\ UtteranceUnit.speaker_id merged = speaker_id
      /\ UtteranceUnit.index_in_session merged = index st
      /\ index st = Z.of_nat (length (utterance_units st))
      /\ exists units,
           structure uuid4 asr_result speaker_id = Ok units
           /\ nth_error units (length (utterance_units st))
              = Some (absorb_all merged
                        (leading_fillers (skipn (i st + 2) segments)))
           /\ ((forall s, nth_error segments (i st + 2) = Some s ->
                          _is_filler_only (ASRSegment.text s) = false) ->
               nth_error units (length (utterance_units st)) = Some merged))
  /\ structure Demo.uuid4 (Demo.asr_result Demo.incomplete_pair) Demo.speaker
     = Ok [ UtteranceUnit.Build 0%N Demo.speaker
              (u "今日は晴れたので 出かけました")
              (PyFloat.dec 0 1) (PyFloat.dec 20 1) (PyFloat.dec 20 1) None
              (PyFloat.dec 0 1) SHORT 0 ].
Proof.
  split; [|vm_compute; reflexivity].
  assert (Hsv : segments_valid segments)
    by (subst segments; now apply sorted_by_start_Forall).
  assert (Hss : StronglySorted start_le segments)
    by (subst segments; now apply sorted_by_start_sorted).
  pose proof (reachable_inv uuid4 segments speaker_id Hsv Hss st Hwalk) as Hinv.
  pose proof (inv_index _ _ _ Hinv) as Hindex.
  pose proof (loop_body_merge uuid4 segments speaker_id Hsv st current next
                ltac:(lia) Hcurrent Hnext Hending Hnot_filler Hshort) as Hstep.
  eexists. split; [exact Hstep|].
  do 7 (split; [first [reflexivity|exact Hindex]|]).
  assert (Hlt : i st < length segments) by (apply nth_error_Some; congruence).
  pose proof (reach_step uuid4 segments speaker_id st _ Hwalk Hlt Hstep) as Hwalk'.
  subst segments.
  destruct (structure_after_reachable uuid4 asr_result speaker_id _
              (utterance_units st) _ Hvalid Hwalk' eq_refl)
    as (units & Hs & Hn).
  simpl in Hn. exists units. split; [exact Hs|]. split; [exact Hn|].
  intros Hnone. rewrite Hn.
  rewrite leading_fillers_none; [reflexivity|].
  intros s. rewrite hd_error_skipn. apply Hnone.
Qed.

Lemma incomplete_ending_merge_witness :
  exists merged,
    loop_body Demo.uuid4 Demo.incomplete_pair Demo.speaker (LoopState 0 [] 0 0)
    = Ok (LoopState 2 [merged] 1 1)
    /\ UtteranceUnit.text merged = u "今日は晴れたので 出かけました".
Proof.
  destruct (incomplete_ending_merge Demo.uuid4
              (Demo.asr_result Demo.incomplete_pair) Demo.speaker
              Demo.incomplete_pair (LoopState 0 [] 0 0)
              Demo.seg_hareta Demo.seg_dekake)
    as [(merged & Hb & Ht & _) _];
    try reflexivity; try (repeat constructor).
  exists merged. split; [exact Hb|exact Ht].
Defined.

(** C5, counterexample.  On "雨が降って" 0.0-1.0, "寒かったので" 1.1-2.0,
    "帰りました" 2.1-3.0 the second segment meets the premises of the
    claim: its text ends with "ので", the third segment follows it, is not
    filler-only, and starts 0.1 after it ends.  [structure] merges the
    first pair, which consumes the second segment, and returns the two
    units "雨が降って 寒かったので" 0.0-2.0 and "帰りました" 2.1-3.0: no unit
    spans from the start of the second segment to the end of the third,
    and no unit holds the texts of both. *)
Lemma consumed_segment_not_merged_with_next :
  nth_error (sorted_by_start (ASRResult.segments (Demo.asr_result Demo.chain))) 1
  = Some Demo.seg_samukatta
  /\ nth_error (sorted_by_start (ASRResult.segments (Demo.asr_result Demo.chain))) 2
     = Some Demo.seg_kaerimashita
  /\ _has_incomplete_ending (ASRSegment.text Demo.seg_samukatta) = true
  /\ _is_filler_only (ASRSegment.text Demo.seg_kaerimashita) = false
  /\ PyFloat.ltb (PyFloat.sub (ASRSegment.start_time Demo.seg_kaerimashita)
                              (ASRSegment.end_time Demo.seg_samukatta))
                 PAUSE_THRESHOLD_SHORT = true
  /\ exists units,
       structure Demo.uuid4 (Demo.asr_result Demo.chain) Demo.speaker = Ok units
       /\ map UtteranceUnit.text units
          = [u "雨が降って 寒かったので"; u "帰りました"]
       /\ map UtteranceUnit.start_time units = [Demo.f0_0; Demo.f2_1]
       /\ map UtteranceUnit.end_time units = [Demo.f2_0; Demo.f3_0]
       /\ pair_joined_in_one_unit units Demo.seg_samukatta
                                  Demo.seg_kaerimashita = false
       /\ ~ (exists x, In x units
                       /\ UtteranceUnit.start_time x
                          = ASRSegment.start_time Demo.seg_samukatta
                       /\ UtteranceUnit.end_time x
                          = ASRSegment.end_time Demo.seg_kaerimashita).
Proof.
  do 5 (split; [vm_compute; reflexivity|]).
  eexists. split; [vm_compute; reflexivity|].
  do 4 (split; [vm_compute; reflexivity|]).
  intros (x & Hin & Hstart & _).
  destruct Hin as [<-|[<-|[]]]; vm_compute in Hstart; discriminate Hstart.
Qed.

(** C8.  When the first segment in chronological order is filler-only, no
    unit exists yet to absorb it, and it is not dropped: the first
    iteration processes it normally and appends a unit of its own, built
    from that segment alone (its text, start and end, pause 0.0, index 0).
    [structure] then returns a non-empty list whose first unit is that
    unit, after it absorbed the filler-only segments that may directly
    follow: it has the first identifier, the start of the segment, pause
    0.0 and index 0.  On the single segment "あの" 0.0-0.5 the result is
    exactly one unit with text "あの". *)
Theorem filler_without_predecessor (uuid4 : nat -> UUID)
    (asr_result : ASRResult.t) (speaker_id : str)
    (first : ASRSegment.t) (rest : list ASRSegment.t)
    (Hvalid : segments_valid (ASRResult.segments asr_result))
    (Hsorted : sorted_by_start (ASRResult.segments asr_result) = first :: rest)
    (Hfiller : _is_filler_only (ASRSegment.text first) = true) :
  (exists own,
      own = UtteranceUnit.Build (uuid4 0) speaker_id
              (ASRSegment.text first)
              (ASRSegment.start_time first) (ASRSegment.end_time first)
              (PyFloat.sub (ASRSegment.end_time first)
                           (ASRSegment.start_time first))
              None PyFloat.zero SHORT 0
      /\ loop_body uuid4 (first :: rest) speaker_id (LoopState 0 [] 0 0)
         = Ok (LoopState 1 [own] 1 1)
      /\ exists kept units,
           structure uuid4 asr_result speaker_id = Ok (kept :: units)
           /\ kept = absorb_all own (leading_fillers rest)
           /\ UtteranceUnit.utterance_id kept = uuid4 0
           /\ UtteranceUnit.start_time kept = ASRSegment.start_time first
           /\ UtteranceUnit.pause_before kept = PyFloat.zero
           /\ UtteranceUnit.index_in_session kept = 0%Z)
  /\ structure Demo.uuid4 (Demo.asr_result Demo.filler_alone) Demo.speaker
     = Ok [ UtteranceUnit.Build 0%N Demo.speaker (u "あの")
              (PyFloat.dec 0 1) (PyFloat.dec 5 1) (PyFloat.dec 5 1) None
              (PyFloat.dec 0 1) SHORT 0 ].
Proof.
  split; [|vm_compute; reflexivity].
  assert (Hsv : segments_valid (first :: rest)).
  { rewrite <- Hsorted. now apply sorted_by_start_Forall. }
  assert (Hfv : ASRSegment.valid first = true) by now inversion Hsv.
  eexists. split; [reflexivity|].
  assert (Hstep :
    loop_body uuid4 (first :: rest) speaker_id (LoopState 0 [] 0 0)
    = Ok (LoopState 1
            [unit_of_segment (uuid4 0) first speaker_id [] 0] 1 1)).
  { rewrite (loop_body_no_absorb uuid4 (first :: rest) speaker_id _ first)
      by (simpl; auto).
    rewrite incomplete_check_complete
      by now apply filler_has_complete_ending.
    rewrite normal_processing_ok by (simpl; auto; lia).
    reflexivity. }
  split; [exact Hstep|].
  assert (Hwalk : reachable uuid4 (sorted_by_start (ASRResult.segments asr_result))
                            speaker_id
                            (LoopState 1
                               [unit_of_segment (uuid4 0) first speaker_id [] 0]
                               1 1)).
  { rewrite Hsorted.
    apply reach_step with (st := LoopState 0 [] 0 0);
      [apply reach_init|simpl; lia|exact Hstep]. }
  destruct (structure_after_reachable uuid4 asr_result speaker_id _ [] _
              Hvalid Hwalk eq_refl) as (units & Hs & Hn).
  rewrite Hsorted in Hn. simpl in Hn.
  destruct units as [|kept units]; [discriminate|].
  simpl in Hn. injection Hn as Hk.
  exists kept, units. split; [exact Hs|]. split; [exact Hk|].
  rewrite Hk.
  destruct (absorb_all_keeps (unit_of_segment (uuid4 0) first speaker_id [] 0)
              (leading_fillers rest)) as (H1 & H2 & H3 & _ & H5).
  repeat split; assumption.
Qed.

Lemma filler_without_predecessor_witness :
  exists kept units,
    structure Demo.uuid4 (Demo.asr_result Demo.filler_alone) Demo.speaker
    = Ok (kept :: units)
    /\ UtteranceUnit.start_time kept = ASRSegment.start_time Demo.seg_ano_first.
Proof.
  destruct (filler_without_predecessor Demo.uuid4
              (Demo.asr_result Demo.filler_alone) Demo.speaker
              Demo.seg_ano_first [])
    as [(own & _ & _ & kept & units & Hs & _ & _ & Hst & _) _];
    try reflexivity; try (repeat constructor).
  exists kept, units. split; [exact Hs|exact Hst].
Defined.

(** C2, amended.  Whenever the walk of [structure] has its cursor at a
    segment [current] with an incomplete ending and the next segment is
    filler-only, the incomplete-ending rule is skipped: the iteration
    builds a unit [own] from [current] alone, and the following iteration
    absorbs the filler into that unit, whose text becomes the strip of the
    two texts joined by a space.  The cursor then stands at segment i+2,
    which has not been merged with [current]: [structure] returns, at the
    position of that index, the unit of [current] with the filler and the
    filler-only segments that may directly follow absorbed, and nothing
    else (exactly [current] with the one filler when segment i+2 is not
    filler-only). *)
Theorem filler_after_incomplete_ending (uuid4 : nat -> UUID)
    (asr_result : ASRResult.t) (speaker_id : str)
    (segments : list ASRSegment.t) (st : loop_state)
    (current filler : ASRSegment.t)
    (Hvalid : segments_valid (ASRResult.segments asr_result))
    (Hsegments : segments = sorted_by_start (ASRResult.segments asr_result))
    (Hwalk : reachable uuid4 segments speaker_id st)
    (Hcurrent : nth_error segments (i st) = Some current)
    (Hnext : nth_error segments (i st + 1) = Some filler)
    (Hending : _has_incomplete_ending (ASRSegment.text current) = true)
    (Hfiller : _is_filler_only (ASRSegment.text filler) = true) :
  exists own absorbed st1,
    loop_body uuid4 segments speaker_id st = Ok st1
    /\ st1 = LoopState (i st + 1) (utterance_units st ++ [own])
                       (index st + 1) (S (uuid_calls st))
    /\ loop_body uuid4 segments speaker_id st1
       = Ok (LoopState (i st + 2) (utterance_units st ++ [absorbed])
                       (index st + 1) (S (uuid_calls st)))
    /\ UtteranceUnit.text own = ASRSegment.text current
    /\ UtteranceUnit.start_time own = ASRSegment.start_time current
    /\ UtteranceUnit.end_time own = ASRSegment.end_time current
    /\ UtteranceUnit.text absorbed
       = PyStr.strip (ASRSegment.text current ++ u " " ++ ASRSegment.text filler)
    /\ UtteranceUnit.utterance_id absorbed = UtteranceUnit.utterance_id own
    /\ UtteranceUnit.index_in_session absorbed = index st
    /\ UtteranceUnit.start_time absorbed = ASRSegment.start_time current
    /\ UtteranceUnit.end_time absorbed
       = PyFloat.max (ASRSegment.end_time current) (ASRSegment.end_time filler)
    /\ exists units,
         structure uuid4 asr_result speaker_id = Ok units
         /\ nth_error units (length (utterance_units st))
            = Some (absorb_all absorbed
                      (leading_fillers (skipn (i st + 2) segments)))
         /\ ((forall s, nth_error segments (i st + 2) = Some s ->
                        _is_filler_only (ASRSegment.text s) = false) ->
             nth_error units (length (utterance_units st)) = Some absorbed).
Proof.
  assert (Hsv : segments_valid segments)
    by (subst segments; now apply sorted_by_start_Forall).
  assert (Hss : StronglySorted start_le segments)
    by (subst segments; now apply sorted_by_start_sorted).
  pose proof (reachable_inv uuid4 segments speaker_id Hsv Hss st Hwalk) as Hinv.
  pose proof (inv_index _ _ _ Hinv) as Hindex.
  destruct (loop_body_filler_next uuid4 segments speaker_id Hsv st current filler
              ltac:(lia) Hcurrent Hnext Hending Hfiller) as [Hstep1 Hstep2].
  cbv zeta in Hstep1, Hstep2.
  do 3 eexists.
  split; [exact Hstep1|]. split; [reflexivity|]. split; [exact Hstep2|].
  do 8 (split; [reflexivity|]).
  assert (Hlt : i st < length segments) by (apply nth_error_Some; congruence).
  assert (Hlt1 : i st + 1 < length segments) by (apply nth_error_Some; congruence).
  pose proof (reach_step uuid4 segments speaker_id st _ Hwalk Hlt Hstep1) as Hw1.
  pose proof (reach_step uuid4 segments speaker_id _ _ Hw1 Hlt1 Hstep2) as Hw2.
  subst segments.
  destruct (structure_after_reachable uuid4 asr_result speaker_id _
              (utterance_units st) _ Hvalid Hw2 eq_refl)
    as (units & Hs & Hn).
  simpl in Hn. exists units. split; [exact Hs|]. split; [exact Hn|].
  intros Hnone. rewrite Hn.
  rewrite leading_fillers_none; [reflexivity|].
  intros s. rewrite hd_error_skipn. apply Hnone.
Qed.

Lemma filler_after_incomplete_ending_witness :
  exists own absorbed st1,
    loop_body Demo.uuid4 Demo.incomplete_filler_next Demo.speaker
              (LoopState 0 [] 0 0) = Ok st1
    /\ st1 = LoopState 1 [own] 1 1
    /\ loop_body Demo.uuid4 Demo.incomplete_filler_next Demo.speaker st1
       = Ok (LoopState 2 [absorbed] 1 1)
    /\ UtteranceUnit.text own = u "今日は晴れたので"
    /\ UtteranceUnit.text absorbed = u "今日は晴れたので あの".
Proof.
  destruct (filler_after_incomplete_ending Demo.uuid4
              (Demo.asr_result Demo.incomplete_filler_next) Demo.speaker
              Demo.incomplete_filler_next (LoopState 0 [] 0 0)
              Demo.seg_hareta Demo.seg_ano)
    as (own & absorbed & st1 & H1 & H2 & H3 & H4 & _ & _ & H5 & _);
    try reflexivity; try (repeat constructor).
  exists own, absorbed, st1. repeat split; assumption.
Defined.

(** C2, counterexample.  On "今日は晴れたので" 0.0-1.0, "あの" 1.0-1.2,
    "出かけました" 1.3-2.0 the premises of the claim hold, and [structure]
    returns the two units "今日は晴れたので あの" and "出かけました": no unit
    combines the first and the third segment, so the filler did not join
    such a unit. *)
Lemma filler_not_joined_with_later_segment :
  _has_incomplete_ending (ASRSegment.text Demo.seg_hareta) = true
  /\ _is_filler_only (ASRSegment.text Demo.seg_ano) = true
  /\ _is_short_pause (PyFloat.sub (ASRSegment.start_time Demo.seg_dekake2)
                                  (ASRSegment.end_time Demo.seg_hareta)) = true
  /\ exists units,
       structure Demo.uuid4 (Demo.asr_result Demo.incomplete_filler_next)
                 Demo.speaker = Ok units
       /\ map UtteranceUnit.text units
          = [u "今日は晴れたので あの"; u "出かけました"]
       /\ filler_joined_merged_pair units Demo.seg_hareta Demo.seg_ano
                                    Demo.seg_dekake2 = false.
Proof.
  repeat split; try (vm_compute; reflexivity).
  eexists. split; [vm_compute; reflexivity|].
  split; vm_compute; reflexivity.
Qed.

(** C3, amended.  For validated segments [a] and [b], [_merge_segments]
    returns a segment whose text is the strip of [a.text + " " + b.text]
    (the texts are joined as they are, by one ASCII space, and only the
    result is stripped), with the start of [a], the end of [b], and the
    segment id and the speaker id of [a]. *)
Theorem merge_segments_fields (segment1 segment2 : ASRSegment.t)
    (Hvalid1 : ASRSegment.valid segment1 = true)
    (Hvalid2 : ASRSegment.valid segment2 = true) :
  exists merged,
    _merge_segments segment1 segment2 = Ok merged
    /\ ASRSegment.text merged
       = PyStr.strip (ASRSegment.text segment1 ++ u " "
                      ++ ASRSegment.text segment2)
    /\ ASRSegment.start_time merged = ASRSegment.start_time segment1
    /\ ASRSegment.end_time merged = ASRSegment.end_time segment2
    /\ ASRSegment.segment_id merged = ASRSegment.segment_id segment1
    /\ ASRSegment.speaker_id merged = ASRSegment.speaker_id segment1.
Proof.
  exists (merged_of segment1 segment2).
  split; [now apply merge_segments_ok|]. repeat split.
Qed.

Lemma merge_segments_fields_witness :
  exists merged,
    _merge_segments Demo.seg_hareta Demo.seg_dekake = Ok merged
    /\ ASRSegment.text merged = u "今日は晴れたので 出かけました".
Proof.
  destruct (merge_segments_fields Demo.seg_hareta Demo.seg_dekake)
    as (merged & H & Ht & _); try reflexivity.
  exists merged. split; [exact H|exact Ht].
Defined.

(** C3, counterexample.  With [a.text = "はい "] (a trailing space) and
    [b.text = "そうです"], the merged text keeps two spaces between the
    words, where trimming both sides first would leave one. *)
Lemma merge_segments_text_not_trimmed_per_side :
  exists merged,
    _merge_segments Demo.seg_hai Demo.seg_soudesu = Ok merged
    /\ ASRSegment.text merged = u "はい  そうです"
    /\ mergeSegments_spec_text Demo.seg_hai Demo.seg_soudesu = u "はい そうです"
    /\ ASRSegment.text merged
       <> mergeSegments_spec_text Demo.seg_hai Demo.seg_soudesu.
Proof.
  eexists. split; [vm_compute; reflexivity|].
  split; [vm_compute; reflexivity|].
  split; [vm_compute; reflexivity|].
  vm_compute. discriminate.
Qed.

(** C4, amended.  For a validated unit [u] and a validated segment [f],
    [_merge_with_previous] returns a unit with the identifier, speaker,
    start, pause_before, pause_level, index and confidence of [u]; its text
    is the strip of [u.text + " " + f.text] (only the result is stripped);
    its end is [max(u.end_time, f.end_time)], which is one of the two and
    not below either; its duration is its end minus its start. *)
Theorem merge_with_previous_fields (previous_unit : UtteranceUnit.t)
    (filler_segment : ASRSegment.t)
    (Hunit : UtteranceUnit.valid previous_unit = true)
    (Hfiller : ASRSegment.valid filler_segment = true) :
  exists merged,
    _merge_with_previous previous_unit filler_segment = Ok merged
    /\ UtteranceUnit.utterance_id merged = UtteranceUnit.utterance_id previous_unit
    /\ UtteranceUnit.speaker_id merged = UtteranceUnit.speaker_id previous_unit
    /\ UtteranceUnit.start_time merged = UtteranceUnit.start_time previous_unit
    /\ UtteranceUnit.pause_before merged = UtteranceUnit.pause_before previous_unit
    /\ UtteranceUnit.pause_level merged = UtteranceUnit.pause_level previous_unit
    /\ UtteranceUnit.index_in_session merged
       = UtteranceUnit.index_in_session previous_unit
    /\ UtteranceUnit.confidence merged = UtteranceUnit.confidence previous_unit
    /\ UtteranceUnit.text merged
       = PyStr.strip (UtteranceUnit.text previous_unit ++ u " "
                      ++ ASRSegment.text filler_segment)
    /\ UtteranceUnit.end_time merged
       = PyFloat.max (UtteranceUnit.end_time previous_unit)
                     (ASRSegment.end_time filler_segment)
    /\ fle (UtteranceUnit.end_time previous_unit) (UtteranceUnit.end_time merged)
    /\ fle (ASRSegment.end_time filler_segment) (UtteranceUnit.end_time merged)
    /\ (UtteranceUnit.end_time merged = UtteranceUnit.end_time previous_unit
        \/ UtteranceUnit.end_time merged = ASRSegment.end_time filler_segment)
    /\ UtteranceUnit.duration merged
       = PyFloat.sub (UtteranceUnit.end_time merged)
                     (UtteranceUnit.start_time merged).
Proof.
  exists (absorbed_of previous_unit filler_segment).
  split; [now apply merge_with_previous_ok|].
  destruct (unit_valid_fields _ Hunit) as (_ & He & _ & _).
  pose proof (segment_valid_end _ Hfiller) as Hf.
  pose proof (leb_not_nan_r _ _ He) as Hn1.
  pose proof (leb_not_nan_r _ _ Hf) as Hn2.
  repeat split; simpl.
  - now apply max_ge_l.
  - now apply max_ge_r.
  - apply max_cases.
Qed.

Lemma merge_with_previous_fields_witness :
  exists merged,
    _merge_with_previous Demo.unit_konnichiwa Demo.seg_ano = Ok merged
    /\ UtteranceUnit.text merged = u "こんにちは あの"
    /\ UtteranceUnit.end_time merged = Demo.f1_2.
Proof.
  destruct (merge_with_previous_fields Demo.unit_konnichiwa Demo.seg_ano)
    as (merged & H & _ & _ & _ & _ & _ & _ & _ & Ht & He & _);
    try reflexivity.
  exists merged. split; [exact H|]. split; [exact Ht|exact He].
Defined.

(** C4, counterexample.  With [u.text = "こんにちは"] and the filler-only
    segment text [" あの"] (a leading space), the merged text keeps two
    spaces between the words, where trimming both sides first would leave
    one. *)
Lemma merge_with_previous_text_not_trimmed_per_side :
  UtteranceUnit.valid Demo.unit_konnichiwa = true
  /\ _is_filler_only (ASRSegment.text Demo.seg_ano_spaced) = true
  /\ exists merged,
       _merge_with_previous Demo.unit_konnichiwa Demo.seg_ano_spaced = Ok merged
       /\ UtteranceUnit.text merged = u "こんにちは  あの"
       /\ absorbFiller_spec_text Demo.unit_konnichiwa Demo.seg_ano_spaced
          = u "こんにちは あの"
       /\ UtteranceUnit.text merged
          <> absorbFiller_spec_text Demo.unit_konnichiwa Demo.seg_ano_spaced.
Proof.
  split; [vm_compute; reflexivity|].
  split; [vm_compute; reflexivity|].
  eexists. split; [vm_compute; reflexivity|].
  split; [vm_compute; reflexivity|].
  split; [vm_compute; reflexivity|].
  vm_compute. discriminate.
Qed.

(* ================================================================== *)
(** * Further properties of the structurer *)

(** ** Every state of the walk, case by case *)

Section WalkCases.
Variable uuid4 : nat -> UUID.
Variable segments : list ASRSegment.t.
Variable speaker_id : str.
Hypothesis segments_ok : segments_valid segments.
Hypothesis segments_sorted : StronglySorted start_le segments.

(** The three outcomes of an iteration, with the state each one yields. *)
Lemma loop_body_cases st cur :
  loop_inv uuid4 segments st ->
  nth_error segments (i st) = Some cur ->
  (_is_filler_only (ASRSegment.text cur) = true
   /\ exists us x,
        utterance_units st = us ++ [x]
        /\ loop_body uuid4 segments speaker_id st
           = Ok (LoopState (i st + 1) (us ++ [absorbed_of x cur])
                           (index st) (uuid_calls st)))
  \/ ((_is_filler_only (ASRSegment.text cur) = false \/ utterance_units st = [])
      /\ exists next,
           nth_error segments (i st + 1) = Some next
           /\ _is_filler_only (ASRSegment.text next) = false
           /\ _has_incomplete_ending (ASRSegment.text cur) = true
           /\ _is_short_pause (PyFloat.sub (ASRSegment.start_time next)
                                           (ASRSegment.end_time cur)) = true
           /\ loop_body uuid4 segments speaker_id st
              = Ok (LoopState (i st + 2)
                      (utterance_units st
                       ++ [unit_of_segment (uuid4 (uuid_calls st))
                             (merged_of cur next) speaker_id
                             (utterance_units st) (index st)])
                      (index st + 1) (S (uuid_calls st))))
  \/ ((_is_filler_only (ASRSegment.text cur) = false \/ utterance_units st = [])
      /\ loop_body uuid4 segments speaker_id st
         = Ok (LoopState (i st + 1)
                 (utterance_units st
                  ++ [unit_of_segment (uuid4 (uuid_calls st)) cur speaker_id
                                      (utterance_units st) (index st)])
                 (index st + 1) (S (uuid_calls st)))).
Proof.
  intros Hinv Hnth.
  pose proof (nth_error_valid _ _ _ segments_ok Hnth) as Hcv.
  assert (Hidx : (0 <= index st)%Z) by (rewrite (inv_index _ _ _ Hinv); lia).
  assert (Hfall :
    (_is_filler_only (ASRSegment.text cur) = false \/ utterance_units st = []) ->
    (exists next,
        nth_error segments (i st + 1) = Some next
        /\ _is_filler_only (ASRSegment.text next) = false
        /\ _has_incomplete_ending (ASRSegment.text cur) = true
        /\ _is_short_pause (PyFloat.sub (ASRSegment.start_time next)
                                        (ASRSegment.end_time cur)) = true
        /\ loop_body uuid4 segments speaker_id st
           = Ok (LoopState (i st + 2)
                   (utterance_units st
                    ++ [unit_of_segment (uuid4 (uuid_calls st))
                          (merged_of cur next) speaker_id
                          (utterance_units st) (index st)])
                   (index st + 1) (S (uuid_calls st))))
    \/ loop_body uuid4 segments speaker_id st
       = Ok (LoopState (i st + 1)
               (utterance_units st
                ++ [unit_of_segment (uuid4 (uuid_calls st)) cur speaker_id
                                    (utterance_units st) (index st)])
               (index st + 1) (S (uuid_calls st)))).
  { intros Hno.
    rewrite (loop_body_no_absorb uuid4 segments speaker_id st cur Hnth Hno).
    destruct (nth_error segments (i st + 1)) as [next|] eqn:Hn.
    - destruct (_is_filler_only (ASRSegment.text next)) eqn:Hf.
      + right.
        rewrite (incomplete_check_next_filler uuid4 segments speaker_id
                   st cur next) by assumption.
        now apply normal_processing_ok.
      + destruct (_has_incomplete_ending (ASRSegment.text cur)) eqn:He.
        * destruct (_is_short_pause
                      (PyFloat.sub (ASRSegment.start_time next)
                                   (ASRSegment.end_time cur))) eqn:Hp.
          -- left. exists next. repeat (split; [first [reflexivity|assumption]|]).
             apply incomplete_check_merge; try assumption.
             eapply nth_error_valid; eauto.
          -- right. rewrite <- normal_processing_ok by assumption.
             unfold incomplete_check.
             destruct (i st + 1 <? length segments)%nat; [|reflexivity].
             unfold getitem. rewrite Hn. simpl. rewrite Hf, He, Hp. reflexivity.
        * right. rewrite incomplete_check_complete by assumption.
          now apply normal_processing_ok.
    - right. rewrite <- normal_processing_ok by assumption.
      unfold incomplete_check.
      destruct (i st + 1 <? length segments)%nat eqn:Hlt; [|reflexivity].
      apply Nat.ltb_lt in Hlt. apply nth_error_None in Hn. lia. }
  destruct (_is_filler_only (ASRSegment.text cur)) eqn:Hf.
  - destruct (nonempty (utterance_units st)) eqn:Hne.
    + left. split; [reflexivity|].
      destruct (nonempty_snoc _ Hne) as (us & x & Hu).
      exists us, x. split; [exact Hu|].
      apply loop_body_absorb; auto.
      pose proof (inv_valid _ _ _ Hinv) as Hv. rewrite Hu in Hv.
      apply Forall_app in Hv as [_ Hv]. now inversion Hv.
    + right. apply nonempty_false in Hne.
      destruct (Hfall (or_intror Hne)) as [H|H]; [left|right]; auto.
  - right. destruct (Hfall (or_introl eq_refl)) as [H|H]; [left|right]; auto.
Qed.

(** An induction principle for properties of the states of the walk: a
    property of the initial state that each of the three kinds of
    iteration preserves holds in every state of the walk. *)
Lemma reachable_ind_cases (J : loop_state -> Prop) :
  J (LoopState 0 [] 0 0) ->
  (forall st cur us x,
      reachable uuid4 segments speaker_id st -> J st ->
      nth_error segments (i st) = Some cur ->
      _is_filler_only (ASRSegment.text cur) = true ->
      utterance_units st = us ++ [x] ->
      J (LoopState (i st + 1) (us ++ [absorbed_of x cur])
                   (index st) (uuid_calls st))) ->
  (forall st cur next,
      reachable uuid4 segments speaker_id st -> J st ->
      nth_error segments (i st) = Some cur ->
      nth_error segments (i st + 1) = Some next ->
      _is_filler_only (ASRSegment.text next) = false ->
      _has_incomplete_ending (ASRSegment.text cur) = true ->
      _is_short_pause (PyFloat.sub (ASRSegment.start_time next)
                                   (ASRSegment.end_time cur)) = true ->
      J (LoopState (i st + 2)
           (utterance_units st
            ++ [unit_of_segment (uuid4 (uuid_calls st)) (merged_of cur next)
                                speaker_id (utterance_units st) (index st)])
           (index st + 1) (S (uuid_calls st)))) ->
  (forall st cur,
      reachable uuid4 segments speaker_id st -> J st ->
      nth_error segments (i st) = Some cur ->
      (_is_filler_only (ASRSegment.text cur) = false
       \/ utterance_units st = []) ->
      J (LoopState (i st + 1)
           (utterance_units st
            ++ [unit_of_segment (uuid4 (uuid_calls st)) cur speaker_id
                                (utterance_units st) (index st)])
           (index st + 1) (S (uuid_calls st)))) ->
  forall st, reachable uuid4 segments speaker_id st -> J st.
Proof.
  intros Hinit Habsorb Hmerge Hnormal st Hr.
  induction Hr as [|st st' Hr IH Hlt Hb]; [exact Hinit|].
  pose proof (reachable_inv uuid4 segments speaker_id segments_ok
                segments_sorted st Hr) as Hinv.
  destruct (nth_error segments (i st)) as [cur|] eqn:Hnth;
    [|apply nth_error_None in Hnth; lia].
  destruct (loop_body_cases st cur Hinv Hnth)
    as [(Hf & us & x & Hu & E)|[(Hno & next & Hn & Hnf & He & Hp & E)|(Hno & E)]];
    rewrite E in Hb; injection Hb as <-.
  - eapply Habsorb; eauto.
  - eapply Hmerge; eauto.
  - eapply Hnormal; eauto.
Qed.

(** The loop ends in a state of the walk whose cursor is at the end. *)
Lemma while_loop_reachable fuel st :
  reachable uuid4 segments speaker_id st ->
  length segments - i st <= fuel ->
  exists st',
    while_loop uuid4 fuel segments speaker_id st = Ok (utterance_units st')
    /\ reachable uuid4 segments speaker_id st'
    /\ length segments <= i st'.
Proof.
  revert st. induction fuel as [|fuel IH]; intros st Hr Hfuel.
  - exists st. simpl.
    assert (E : (i st <? length segments)%nat = false) by (apply Nat.ltb_ge; lia).
    rewrite E. split; [reflexivity|]. split; [exact Hr|lia].
  - simpl. destruct (i st <? length segments)%nat eqn:E.
    + apply Nat.ltb_lt in E.
      pose proof (reachable_inv uuid4 segments speaker_id segments_ok
                    segments_sorted st Hr) as Hinv.
      destruct (loop_body_inv uuid4 segments speaker_id segments_ok
                  segments_sorted st Hinv E) as (st1 & Hb & _ & Hadv).
      rewrite Hb. simpl. apply IH; [|lia].
      eapply reach_step; eauto.
    + apply Nat.ltb_ge in E. exists st.
      split; [reflexivity|]. split; [exact Hr|lia].
Qed.

End WalkCases.

(** [structure] returns the working list of the last state of its walk. *)
Lemma structure_reachable uuid4 (asr_result : ASRResult.t) (speaker_id : str) :
  segments_valid (ASRResult.segments asr_result) ->
  exists st,
    structure uuid4 asr_result speaker_id = Ok (utterance_units st)
    /\ reachable uuid4 (sorted_by_start (ASRResult.segments asr_result))
                 speaker_id st
    /\ i st = length (ASRResult.segments asr_result).
Proof.
  intros Hv. rewrite structure_is_while_loop.
  set (segs := sorted_by_start (ASRResult.segments asr_result)).
  assert (Hsv : segments_valid segs) by now apply sorted_by_start_Forall.
  assert (Hss : StronglySorted start_le segs) by now apply sorted_by_start_sorted.
  destruct (while_loop_reachable uuid4 segs speaker_id Hsv Hss (length segs)
              (LoopState 0 [] 0 0) (reach_init _ _ _) ltac:(simpl; lia))
    as (st & Hw & Hr & Hi).
  exists st. split; [exact Hw|]. split; [exact Hr|].
  pose proof (inv_cursor _ _ _ (reachable_inv uuid4 segs speaker_id Hsv Hss st Hr)).
  unfold segs in *. rewrite sorted_by_start_length in *. lia.
Qed.

(** ** What [structure] returns *)

Lemma walk_length_bound uuid4 segments speaker_id st :
  segments_valid segments -> StronglySorted start_le segments ->
  reachable uuid4 segments speaker_id st ->
  length (utterance_units st) <= i st.
Proof.
  intros Hv Hs.
  apply (reachable_ind_cases uuid4 segments speaker_id Hv Hs
           (fun st => length (utterance_units st) <= i st)); simpl.
  - lia.
  - intros st0 cur us x _ H _ _ Hu. rewrite Hu in H.
    rewrite length_app in *. simpl in *. lia.
  - intros st0 cur next _ H _ _ _ _ _. rewrite length_app. simpl. lia.
  - intros st0 cur _ H _ _. rewrite length_app. simpl. lia.
Qed.

Lemma structure_returns_bounded_facts (uuid4 : nat -> UUID)
    (asr_result : ASRResult.t) (speaker_id : str)
    (Hvalid : segments_valid (ASRResult.segments asr_result)) :
  exists units,
    structure uuid4 asr_result speaker_id = Ok units
    /\ length units <= length (ASRResult.segments asr_result)
    /\ (units = [] <-> ASRResult.segments asr_result = [])
    /\ Forall (fun x => UtteranceUnit.valid x = true) units.
Proof.
  destruct (structure_reachable uuid4 asr_result speaker_id Hvalid)
    as (st & Hs & Hr & Hi).
  set (segs := sorted_by_start (ASRResult.segments asr_result)) in *.
  assert (Hsv : segments_valid segs) by now apply sorted_by_start_Forall.
  assert (Hss : StronglySorted start_le segs) by now apply sorted_by_start_sorted.
  pose proof (reachable_inv uuid4 segs speaker_id Hsv Hss st Hr) as Hinv.
  pose proof (walk_length_bound uuid4 segs speaker_id st Hsv Hss Hr) as Hlen.
  exists (utterance_units st). split; [exact Hs|]. split; [lia|].
  split; [|apply (inv_valid _ _ _ Hinv)].
  split.
  - intros Hu. destruct (ASRResult.segments asr_result) as [|s l]; [reflexivity|].
    exfalso. apply (inv_progress _ _ _ Hinv); [rewrite Hi; simpl; lia|exact Hu].
  - intros Hl. rewrite Hl in Hi. simpl in Hi.
    destruct (utterance_units st); [reflexivity|simpl in Hlen; lia].
Qed.

(** X1.  On validated segments [structure] always returns a list (it
    raises nothing and its loop ends within [len(segments)] iterations);
    the list has at most as many units as there are segments, it is empty
    exactly when the input is empty, and every unit in it satisfies the
    validators of [UtteranceUnit]. *)
Theorem structure_returns_bounded (uuid4 : nat -> UUID)
    (asr_result : ASRResult.t) (speaker_id : str)
    (Hvalid : segments_valid (ASRResult.segments asr_result)) :
  exists units,
    structure uuid4 asr_result speaker_id = Ok units
    /\ length units <= length (ASRResult.segments asr_result)
    /\ (units = [] <-> ASRResult.segments asr_result = [])
    /\ Forall (fun x => UtteranceUnit.valid x = true) units.
Proof. eapply structure_returns_bounded_facts; eassumption. Qed.

Lemma structure_returns_bounded_witness :
  segments_valid (ASRResult.segments (Demo.asr_result Demo.chain))
  /\ exists units,
       structure Demo.uuid4 (Demo.asr_result Demo.chain) Demo.speaker = Ok units
       /\ length units <= 3.
Proof.
  assert (H : segments_valid (ASRResult.segments (Demo.asr_result Demo.chain)))
    by (repeat constructor).
  split; [exact H|].
  destruct (structure_returns_bounded Demo.uuid4 (Demo.asr_result Demo.chain)
              Demo.speaker H) as (units & Hs & Hl & _).
  exists units. split; [exact Hs|exact Hl].
Defined.

(** X2.  [structure] calls [uuid4()] once per returned unit, in list
    order: the k-th unit carries the k-th identifier generated.  When the
    generated identifiers are pairwise different, so are the
    [utterance_id]s of the returned units (a unit that absorbed fillers
    keeps the identifier it was created with). *)
Theorem structure_utterance_ids (uuid4 : nat -> UUID)
    (asr_result : ASRResult.t) (speaker_id : str)
    (Hvalid : segments_valid (ASRResult.segments asr_result)) :
  exists units,
    structure uuid4 asr_result speaker_id = Ok units
    /\ map UtteranceUnit.utterance_id units = map uuid4 (seq 0 (length units))
    /\ ((forall m n, uuid4 m = uuid4 n -> m = n) ->
        NoDup (map UtteranceUnit.utterance_id units)).
Proof.
  destruct (structure_inv uuid4 asr_result speaker_id Hvalid)
    as (st & Hs & Hinv & _).
  exists (utterance_units st). split; [exact Hs|].
  pose proof (inv_ids _ _ _ Hinv) as Hid. split; [exact Hid|].
  intros Hinj. rewrite Hid.
  generalize (seq_NoDup (length (utterance_units st)) 0).
  generalize (seq 0 (length (utterance_units st))).
  induction l as [|n l IH]; intros Hnd; simpl; [constructor|].
  inversion Hnd as [|? ? Hn Hl]; subst. constructor; [|now apply IH].
  intros Hin. apply in_map_iff in Hin as (m & Hm & Hin).
  apply Hinj in Hm. subst. contradiction.
Qed.

Lemma structure_utterance_ids_witness :
  segments_valid (ASRResult.segments (Demo.asr_result Demo.chain))
  /\ exists units,
       structure Demo.uuid4 (Demo.asr_result Demo.chain) Demo.speaker = Ok units
       /\ NoDup (map UtteranceUnit.utterance_id units).
Proof.
  assert (H : segments_valid (ASRResult.segments (Demo.asr_result Demo.chain)))
    by (repeat constructor).
  split; [exact H|].
  destruct (structure_utterance_ids Demo.uuid4 (Demo.asr_result Demo.chain)
              Demo.speaker H) as (units & Hs & _ & Hn).
  exists units. split; [exact Hs|]. apply Hn.
  intros m n E. unfold Demo.uuid4 in E. lia.
Defined.

Lemma structure_unit_fields_facts (uuid4 : nat -> UUID)
    (asr_result : ASRResult.t) (speaker_id : str)
    (Hvalid : segments_valid (ASRResult.segments asr_result)) :
  exists units,
    structure uuid4 asr_result speaker_id = Ok units
    /\ Forall (fun x =>
                 UtteranceUnit.speaker_id x = speaker_id
                 /\ UtteranceUnit.confidence x = None
                 /\ UtteranceUnit.duration x
                    = PyFloat.sub (UtteranceUnit.end_time x)
                                  (UtteranceUnit.start_time x))
              units.
Proof.
  destruct (structure_reachable uuid4 asr_result speaker_id Hvalid)
    as (st & Hs & Hr & _).
  exists (utterance_units st). split; [exact Hs|].
  set (segs := sorted_by_start (ASRResult.segments asr_result)) in *.
  assert (Hsv : segments_valid segs) by now apply sorted_by_start_Forall.
  assert (Hss : StronglySorted start_le segs) by now apply sorted_by_start_sorted.
  revert st Hr Hs.
  intros st Hr _. revert st Hr.
  apply (reachable_ind_cases uuid4 segs speaker_id Hsv Hss
           (fun st => Forall _ (utterance_units st))); simpl.
  - constructor.
  - intros st cur us x _ H _ _ Hu. rewrite Hu in H.
    apply Forall_app in H as [H1 H2]. inversion H2 as [|? ? (Ha & Hb & Hc) _]; subst.
    apply Forall_app. split; [exact H1|].
    constructor; [|constructor]. simpl. auto.
  - intros st cur next _ H _ _ _ _ _.
    apply Forall_app. split; [exact H|].
    constructor; [|constructor]. simpl. auto.
  - intros st cur _ H _ _.
    apply Forall_app. split; [exact H|].
    constructor; [|constructor]. simpl. auto.
Qed.

(** X3.  Every returned unit carries the speaker id given by the caller
    (the [speaker_id] field of the segments is never read), has no
    confidence, and has a [duration] equal to its own [end_time] minus its
    own [start_time], also after it absorbed fillers. *)
Theorem structure_unit_fields (uuid4 : nat -> UUID)
    (asr_result : ASRResult.t) (speaker_id : str)
    (Hvalid : segments_valid (ASRResult.segments asr_result)) :
  exists units,
    structure uuid4 asr_result speaker_id = Ok units
    /\ Forall (fun x =>
                 UtteranceUnit.speaker_id x = speaker_id
                 /\ UtteranceUnit.confidence x = None
                 /\ UtteranceUnit.duration x
                    = PyFloat.sub (UtteranceUnit.end_time x)
                                  (UtteranceUnit.start_time x))
              units.
Proof. eapply structure_unit_fields_facts; eassumption. Qed.

Lemma structure_unit_fields_witness :
  segments_valid (ASRResult.segments
                    (Demo.asr_result Demo.incomplete_filler_next))
  /\ exists units,
       structure Demo.uuid4 (Demo.asr_result Demo.incomplete_filler_next)
                 Demo.speaker = Ok units
       /\ Forall (fun x => UtteranceUnit.speaker_id x = Demo.speaker) units.
Proof.
  assert (H : segments_valid
                (ASRResult.segments
                   (Demo.asr_result Demo.incomplete_filler_next)))
    by (repeat constructor).
  split; [exact H|].
  destruct (structure_unit_fields Demo.uuid4
              (Demo.asr_result Demo.incomplete_filler_next) Demo.speaker H)
    as (units & Hs & Hf).
  exists units. split; [exact Hs|].
  eapply Forall_impl; [|exact Hf]. intros x Hx. exact (proj1 Hx).
Defined.

(** ** Relations between neighbouring units *)

Lemma Sorted_snoc {A} (R : A -> A -> Prop) (l : list A) (z : A) :
  Sorted R l -> (forall x, last_opt l = Some x -> R x z) ->
  Sorted R (l ++ [z]).
Proof.
  induction l as [|x l IH]; intros Hs Hz; simpl.
  - repeat constructor.
  - inversion Hs as [|? ? Hs' Hh]; subst.
    constructor.
    + apply IH; [exact Hs'|].
      intros y Hy. apply Hz. simpl. destruct l; [discriminate|exact Hy].
    + destruct l as [|y l]; simpl.
      * constructor. apply Hz. reflexivity.
      * constructor. now inversion Hh.
Qed.

Lemma Sorted_replace_last {A} (R : A -> A -> Prop) (l : list A) (x x' : A) :
  Sorted R (l ++ [x]) -> (forall w, R w x -> R w x') ->
  Sorted R (l ++ [x']).
Proof.
  induction l as [|y l IH]; intros Hs Hx; simpl in *.
  - repeat constructor.
  - inversion Hs as [|? ? Hs' Hh]; subst.
    constructor; [now apply IH|].
    destruct l as [|z l]; simpl in *.
    + constructor. apply Hx. now inversion Hh.
    + constructor. now inversion Hh.
Qed.

Lemma Sorted_nth_error {A} (R : A -> A -> Prop) (l : list A) (k : nat) (x y : A) :
  Sorted R l -> nth_error l k = Some x -> nth_error l (S k) = Some y -> R x y.
Proof.
  revert k. induction l as [|a l IH]; intros k Hs Hx Hy; [destruct k; discriminate|].
  inversion Hs as [|? ? Hs' Hh]; subst.
  destruct k as [|k]; simpl in *.
  - injection Hx as <-. destruct l as [|b l]; [discriminate|].
    simpl in Hy. injection Hy as <-. now inversion Hh.
  - eapply IH; eauto.
Qed.

Lemma walk_pause_follows uuid4 segments speaker_id st :
  segments_valid segments -> StronglySorted start_le segments ->
  reachable uuid4 segments speaker_id st ->
  Sorted pause_follows (utterance_units st).
Proof.
  intros Hv Hs.
  apply (reachable_ind_cases uuid4 segments speaker_id Hv Hs
           (fun st => Sorted pause_follows (utterance_units st))); simpl.
  - constructor.
  - intros st0 cur us x _ H _ _ Hu. rewrite Hu in H.
    apply Sorted_replace_last with (x := x); [exact H|].
    intros w Hw. exact Hw.
  - intros st0 cur next _ H _ _ _ _ _.
    apply Sorted_snoc; [exact H|].
    intros x Hx. unfold pause_follows, unit_of_segment, pause_before_of. simpl.
    now rewrite Hx.
  - intros st0 cur _ H _ _.
    apply Sorted_snoc; [exact H|].
    intros x Hx. unfold pause_follows, unit_of_segment, pause_before_of. simpl.
    now rewrite Hx.
Qed.

(** X4.  In the returned list, the [pause_before] of every unit but the
    first is the gap to the unit right before it, as that unit is returned
    (with the fillers it absorbed), clamped at zero:
    [max(0.0, start_time - previous.end_time)]. *)
Theorem structure_pause_is_gap (uuid4 : nat -> UUID)
    (asr_result : ASRResult.t) (speaker_id : str)
    (Hvalid : segments_valid (ASRResult.segments asr_result)) :
  exists units,
    structure uuid4 asr_result speaker_id = Ok units
    /\ forall k previous unit,
         nth_error units k = Some previous ->
         nth_error units (S k) = Some unit ->
         UtteranceUnit.pause_before unit
         = PyFloat.max PyFloat.zero
             (PyFloat.sub (UtteranceUnit.start_time unit)
                          (UtteranceUnit.end_time previous)).
Proof.
  destruct (structure_reachable uuid4 asr_result speaker_id Hvalid)
    as (st & Hs & Hr & _).
  exists (utterance_units st). split; [exact Hs|].
  intros k previous unit Hp Hu.
  apply (Sorted_nth_error pause_follows (utterance_units st) k); auto.
  apply (walk_pause_follows uuid4
           (sorted_by_start (ASRResult.segments asr_result)) speaker_id st).
  - now apply sorted_by_start_Forall.
  - now apply sorted_by_start_sorted.
  - exact Hr.
Qed.

Lemma structure_pause_is_gap_witness :
  segments_valid (ASRResult.segments
                    (Demo.asr_result Demo.incomplete_filler_next))
  /\ exists units,
       structure Demo.uuid4 (Demo.asr_result Demo.incomplete_filler_next)
                 Demo.speaker = Ok units
       /\ forall previous unit,
            nth_error units 0 = Some previous ->
            nth_error units 1 = Some unit ->
            UtteranceUnit.pause_before unit
            = PyFloat.max PyFloat.zero
                (PyFloat.sub (UtteranceUnit.start_time unit)
                             (UtteranceUnit.end_time previous)).
Proof.
  assert (H : segments_valid
                (ASRResult.segments
                   (Demo.asr_result Demo.incomplete_filler_next)))
    by (repeat constructor).
  split; [exact H|].
  destruct (structure_pause_is_gap Demo.uuid4
              (Demo.asr_result Demo.incomplete_filler_next) Demo.speaker H)
    as (units & Hs & Hp).
  exists units. split; [exact Hs|]. exact (Hp 0).
Defined.

(** ** Spans *)

Lemma sorted_neighbours (segments : list ASRSegment.t) (n : nat) (a b : ASRSegment.t) :
  StronglySorted start_le segments ->
  nth_error segments n = Some a -> nth_error segments (n + 1) = Some b ->
  start_le a b.
Proof.
  intros Hs Ha Hb.
  pose proof (StronglySorted_skipn_keep start_le segments n Hs) as H.
  rewrite (skipn_nth_error_cons _ _ _ Ha) in H.
  rewrite Nat.add_1_r in Hb.
  rewrite (skipn_nth_error_cons _ _ _ Hb) in H.
  inversion H as [|? ? _ Hf]; subst. now inversion Hf.
Qed.

(** X5.  When every segment ends no earlier than it starts, so does every
    returned unit: merging two segments and absorbing fillers never yields
    a unit whose [end_time] lies before its [start_time]. *)
Theorem structure_spans_forward (uuid4 : nat -> UUID)
    (asr_result : ASRResult.t) (speaker_id : str)
    (Hvalid : segments_valid (ASRResult.segments asr_result))
    (Hspans : Forall (fun s => fle (ASRSegment.start_time s)
                                   (ASRSegment.end_time s))
                     (ASRResult.segments asr_result)) :
  exists units,
    structure uuid4 asr_result speaker_id = Ok units
    /\ Forall (fun x => fle (UtteranceUnit.start_time x)
                            (UtteranceUnit.end_time x))
              units.
Proof.
  destruct (structure_reachable uuid4 asr_result speaker_id Hvalid)
    as (st & Hs & Hr & _).
  exists (utterance_units st). split; [exact Hs|].
  set (segs := sorted_by_start (ASRResult.segments asr_result)) in *.
  assert (Hsv : segments_valid segs) by now apply sorted_by_start_Forall.
  assert (Hss : StronglySorted start_le segs) by now apply sorted_by_start_sorted.
  assert (Hsp : Forall (fun s => fle (ASRSegment.start_time s)
                                     (ASRSegment.end_time s)) segs)
    by now apply sorted_by_start_Forall.
  assert (Hat : forall n s, nth_error segs n = Some s ->
                            fle (ASRSegment.start_time s) (ASRSegment.end_time s)).
  { intros n s Hn. apply nth_error_In in Hn.
    rewrite Forall_forall in Hsp. auto. }
  clear Hs. revert st Hr.
  apply (reachable_ind_cases uuid4 segs speaker_id Hsv Hss
           (fun st => Forall _ (utterance_units st))); simpl.
  - constructor.
  - intros st cur us x _ H _ _ Hu. rewrite Hu in H.
    apply Forall_app in H as [H1 H2]. inversion H2 as [|? ? Hx _]; subst.
    apply Forall_app. split; [exact H1|].
    constructor; [|constructor]. simpl. unfold fle in *.
    apply leb_trans with (UtteranceUnit.end_time x); [exact Hx|].
    apply max_ge_l. eapply leb_not_nan_r; eauto.
  - intros st cur next _ H Hc Hn _ _ _.
    apply Forall_app. split; [exact H|].
    constructor; [|constructor]. simpl. unfold fle.
    apply leb_trans with (ASRSegment.start_time next).
    + exact (sorted_neighbours segs (i st) cur next Hss Hc Hn).
    + exact (Hat _ _ Hn).
  - intros st cur _ H Hc _.
    apply Forall_app. split; [exact H|].
    constructor; [|constructor]. simpl. exact (Hat _ _ Hc).
Qed.

Lemma structure_spans_forward_witness :
  exists units,
    structure Demo.uuid4 (Demo.asr_result Demo.chain) Demo.speaker = Ok units
    /\ Forall (fun x => fle (UtteranceUnit.start_time x)
                            (UtteranceUnit.end_time x))
              units.
Proof.
  apply structure_spans_forward; repeat constructor.
Defined.

(** ** Plain input *)

Lemma firstn_succ_nth_error {A} (l : list A) (n : nat) (a : A) :
  nth_error l n = Some a -> firstn (n + 1) l = firstn n l ++ [a].
Proof.
  revert n. induction l as [|x l IH]; intros [|n] H; try discriminate; simpl in *.
  - now injection H as ->.
  - f_equal. now apply IH.
Qed.

(** X6.  When no segment is filler-only and none has an incomplete ending,
    no rule fires: [structure] returns one unit per segment, in
    chronological order, each with the text, the start and the end of its
    segment unchanged. *)
Theorem structure_plain_input (uuid4 : nat -> UUID)
    (asr_result : ASRResult.t) (speaker_id : str)
    (Hvalid : segments_valid (ASRResult.segments asr_result))
    (Hplain : Forall (fun s =>
                        _is_filler_only (ASRSegment.text s) = false
                        /\ _has_incomplete_ending (ASRSegment.text s) = false)
                     (ASRResult.segments asr_result)) :
  exists units,
    structure uuid4 asr_result speaker_id = Ok units
    /\ length units = length (ASRResult.segments asr_result)
    /\ map UtteranceUnit.text units
       = map ASRSegment.text (sorted_by_start (ASRResult.segments asr_result))
    /\ map UtteranceUnit.start_time units
       = map ASRSegment.start_time
             (sorted_by_start (ASRResult.segments asr_result))
    /\ map UtteranceUnit.end_time units
       = map ASRSegment.end_time
             (sorted_by_start (ASRResult.segments asr_result)).
Proof.
  destruct (structure_reachable uuid4 asr_result speaker_id Hvalid)
    as (st & Hs & Hr & Hi).
  exists (utterance_units st). split; [exact Hs|].
  set (segs := sorted_by_start (ASRResult.segments asr_result)) in *.
  assert (Hsv : segments_valid segs) by now apply sorted_by_start_Forall.
  assert (Hss : StronglySorted start_le segs) by now apply sorted_by_start_sorted.
  assert (Hpl : Forall (fun s =>
                          _is_filler_only (ASRSegment.text s) = false
                          /\ _has_incomplete_ending (ASRSegment.text s) = false)
                       segs)
    by now apply sorted_by_start_Forall.
  assert (Hat : forall n s, nth_error segs n = Some s ->
                  _is_filler_only (ASRSegment.text s) = false
                  /\ _has_incomplete_ending (ASRSegment.text s) = false).
  { intros n s Hn. apply nth_error_In in Hn.
    rewrite Forall_forall in Hpl. auto. }
  assert (J : map UtteranceUnit.text (utterance_units st)
              = map ASRSegment.text (firstn (i st) segs)
              /\ map UtteranceUnit.start_time (utterance_units st)
                 = map ASRSegment.start_time (firstn (i st) segs)
              /\ map UtteranceUnit.end_time (utterance_units st)
                 = map ASRSegment.end_time (firstn (i st) segs)).
  { clear Hs Hi. revert st Hr.
    apply (reachable_ind_cases uuid4 segs speaker_id Hsv Hss
             (fun st =>
                map UtteranceUnit.text (utterance_units st)
                = map ASRSegment.text (firstn (i st) segs)
                /\ map UtteranceUnit.start_time (utterance_units st)
                   = map ASRSegment.start_time (firstn (i st) segs)
                /\ map UtteranceUnit.end_time (utterance_units st)
                   = map ASRSegment.end_time (firstn (i st) segs))); simpl.
    - auto.
    - intros st cur us x _ _ Hc Hf _.
      destruct (Hat _ _ Hc) as [Hnf _]. congruence.
    - intros st cur next _ _ Hc _ _ He _.
      destruct (Hat _ _ Hc) as [_ Hne]. congruence.
    - intros st cur _ (H1 & H2 & H3) Hc _.
      rewrite (firstn_succ_nth_error _ _ _ Hc), !map_app, H1, H2, H3.
      simpl. auto. }
  assert (Hfull : firstn (i st) segs = segs).
  { apply firstn_all2. unfold segs. rewrite sorted_by_start_length. lia. }
  rewrite Hfull in J. destruct J as (J1 & J2 & J3).
  split; [|auto].
  rewrite <- (length_map UtteranceUnit.text), J1, length_map.
  unfold segs. apply sorted_by_start_length.
Qed.

Lemma structure_plain_input_witness :
  exists units,
    structure Demo.uuid4 (Demo.asr_result Demo.overlapping) Demo.speaker
    = Ok units
    /\ length units = 2
    /\ map UtteranceUnit.text units = [u "はい"; u "いいえ"].
Proof.
  destruct (structure_plain_input Demo.uuid4 (Demo.asr_result Demo.overlapping)
              Demo.speaker) as (units & Hs & Hl & Ht & _).
  - repeat constructor.
  - repeat constructor.
  - exists units. split; [exact Hs|]. split; [exact Hl|exact Ht].
Defined.

(** ** The sort inside [structure] *)

(** A list already in non-decreasing order of start is left as it is. *)
Lemma sorted_by_start_fixed (l : list ASRSegment.t) :
  StronglySorted start_le l -> sorted_by_start l = l.
Proof.
  induction 1 as [|x l Hs IH Hx]; simpl; [reflexivity|].
  rewrite IH. destruct l as [|y l]; simpl; [reflexivity|].
  inversion Hx as [|? ? Hxy _]; subst.
  now rewrite (leb_ltb_false _ _ Hxy).
Qed.

(** Two non-decreasing rearrangements of the same segments are equal when
    different segments start at different times. *)
Lemma sorted_unique (l1 l2 : list ASRSegment.t) :
  StronglySorted start_le l1 -> StronglySorted start_le l2 ->
  Permutation l1 l2 ->
  (forall s t, In s l1 -> In t l1 -> s = t \/ starts_differ s t) ->
  l1 = l2.
Proof.
  revert l2. induction l1 as [|x l1 IH]; intros l2 H1 H2 Hp Hd.
  - apply Permutation_nil in Hp. now subst.
  - destruct l2 as [|y l2];
      [apply Permutation_sym, Permutation_nil in Hp; discriminate|].
    inversion H1 as [|? ? H1' Hx]; subst.
    inversion H2 as [|? ? H2' Hy]; subst.
    assert (Exy : x = y).
    { assert (Hyin : In y (x :: l1))
        by (apply Permutation_in with (y :: l2);
            [now apply Permutation_sym|now left]).
      assert (Hxin : In x (y :: l2))
        by (apply Permutation_in with (x :: l1); [exact Hp|now left]).
      destruct Hyin as [E|Hyin]; [exact E|].
      destruct Hxin as [E|Hxin]; [now symmetry|].
      rewrite Forall_forall in Hx, Hy.
      pose proof (Hx y Hyin) as Lxy. pose proof (Hy x Hxin) as Lyx.
      destruct (Hd x y (or_introl eq_refl) (or_intror Hyin)) as [E|[E|E]];
        [exact E| |].
      - apply leb_ltb_false in Lyx. unfold start_le, fle in *. congruence.
      - apply leb_ltb_false in Lxy. unfold start_le, fle in *. congruence. }
    subst y. f_equal. apply IH; auto.
    + eapply Permutation_cons_inv; eauto.
    + intros s t Hs Ht. apply Hd; now right.
Qed.

(** X7.  The order in which the segments are handed over does not matter
    when different segments start at different times: two results whose
    segment lists are rearrangements of one another give the same outcome
    of [structure], unit for unit. *)
Theorem structure_order_independent (uuid4 : nat -> UUID)
    (asr_result1 asr_result2 : ASRResult.t) (speaker_id : str)
    (Hvalid : segments_valid (ASRResult.segments asr_result1))
    (Hperm : Permutation (ASRResult.segments asr_result1)
                         (ASRResult.segments asr_result2))
    (Hdiffer : forall s t,
        In s (ASRResult.segments asr_result1) ->
        In t (ASRResult.segments asr_result1) ->
        s = t \/ starts_differ s t) :
  structure uuid4 asr_result1 speaker_id
  = structure uuid4 asr_result2 speaker_id.
Proof.
  assert (Hvalid2 : segments_valid (ASRResult.segments asr_result2)).
  { unfold segments_valid in *. rewrite Forall_forall in *.
    intros s Hs. apply Hvalid. eapply Permutation_in; [|exact Hs].
    now apply Permutation_sym. }
  assert (E : sorted_by_start (ASRResult.segments asr_result1)
              = sorted_by_start (ASRResult.segments asr_result2)).
  { apply sorted_unique.
    - now apply sorted_by_start_sorted.
    - now apply sorted_by_start_sorted.
    - rewrite <- !sorted_by_start_perm. exact Hperm.
    - intros s t Hs Ht. apply Hdiffer.
      + eapply Permutation_in; [|exact Hs].
        apply Permutation_sym, sorted_by_start_perm.
      + eapply Permutation_in; [|exact Ht].
        apply Permutation_sym, sorted_by_start_perm. }
  rewrite !structure_is_while_loop, E. reflexivity.
Qed.

Lemma structure_order_independent_witness :
  structure Demo.uuid4 (Demo.asr_result Demo.chain) Demo.speaker
  = structure Demo.uuid4 (Demo.asr_result (rev Demo.chain)) Demo.speaker.
Proof.
  apply structure_order_independent.
  - repeat constructor.
  - apply Permutation_rev.
  - intros s t Hs Ht. simpl in Hs, Ht.
    destruct Hs as [<-|[<-|[<-|[]]]]; destruct Ht as [<-|[<-|[<-|[]]]];
      first [left; reflexivity
            |right; left; reflexivity
            |right; right; reflexivity].
Defined.

(** X8.  Segments that arrive in non-decreasing order of start, ties
    included, are walked in exactly the order given: the sort at the head
    of [structure] changes nothing, so [structure] is the loop run on the
    list as it is. *)
Theorem structure_keeps_sorted_input (uuid4 : nat -> UUID)
    (asr_result : ASRResult.t) (speaker_id : str)
    (Hsorted : StronglySorted start_le (ASRResult.segments asr_result)) :
  sorted_by_start (ASRResult.segments asr_result)
  = ASRResult.segments asr_result
  /\ structure uuid4 asr_result speaker_id
     = while_loop uuid4 (length (ASRResult.segments asr_result))
         (ASRResult.segments asr_result) speaker_id (LoopState 0 [] 0 0).
Proof.
  pose proof (sorted_by_start_fixed _ Hsorted) as E.
  split; [exact E|].
  rewrite structure_is_while_loop, E. reflexivity.
Qed.

Lemma structure_keeps_sorted_input_witness :
  sorted_by_start (ASRResult.segments (Demo.asr_result Demo.overlapping))
  = ASRResult.segments (Demo.asr_result Demo.overlapping).
Proof.
  refine (proj1 (structure_keeps_sorted_input Demo.uuid4
                   (Demo.asr_result Demo.overlapping) Demo.speaker _)).
  repeat constructor.
Defined.

(** ** The pause tests *)

Lemma ltb_leb_trans (a b c : float) :
  PyFloat.ltb a b = true -> PyFloat.leb b c = true -> PyFloat.ltb a c = true.
Proof. float_cases. Qed.

(** X9.  The incomplete-ending rule and the pause classifier agree on what
    a short pause is: [_is_short_pause] accepts a gap exactly when
    [_classify_pause_level] calls it SHORT, for every float (a NaN is not
    short).  The gap the rule tests is not clamped: every negative gap,
    which overlapping segments produce, is a short pause. *)
Theorem short_pause_is_short_level (pause : float) :
  (_is_short_pause pause = true <-> _classify_pause_level pause = SHORT)
  /\ (PyFloat.ltb pause PyFloat.zero = true -> _is_short_pause pause = true)
  /\ _is_short_pause S754_nan = false.
Proof.
  split; [|split; [|reflexivity]].
  - unfold _is_short_pause, _classify_pause_level.
    destruct (PyFloat.ltb pause PAUSE_THRESHOLD_SHORT); [tauto|].
    destruct (PyFloat.ltb pause PAUSE_THRESHOLD_LONG); split; discriminate.
  - intros H. unfold _is_short_pause.
    apply ltb_leb_trans with PyFloat.zero; [exact H|reflexivity].
Qed.

Lemma short_pause_is_short_level_witness :
  PyFloat.ltb (PyFloat.sub Demo.f1_0 Demo.f2_0) PyFloat.zero = true
  /\ _is_short_pause (PyFloat.sub Demo.f1_0 Demo.f2_0) = true.
Proof.
  assert (H : PyFloat.ltb (PyFloat.sub Demo.f1_0 Demo.f2_0) PyFloat.zero = true)
    by (vm_compute; reflexivity).
  split; [exact H|].
  exact (proj1 (proj2 (short_pause_is_short_level _)) H).
Defined.

(** ** [str.strip()] *)

Lemma lstrip_spaces (ws s : str) :
  forallb PyStr.isspace ws = true -> PyStr.lstrip (ws ++ s) = PyStr.lstrip s.
Proof.
  induction ws as [|c ws IH]; simpl; [reflexivity|].
  intros [Hc Hws]%andb_prop. rewrite Hc. now apply IH.
Qed.

Lemma lstrip_all_spaces (ws : str) :
  forallb PyStr.isspace ws = true -> PyStr.lstrip ws = [].
Proof.
  intros H. rewrite <- (app_nil_r ws). rewrite lstrip_spaces; auto.
Qed.

Lemma lstrip_no_leading (s : str) : no_leading_space (PyStr.lstrip s) = true.
Proof.
  induction s as [|c s IH]; simpl; [reflexivity|].
  destruct (PyStr.isspace c) eqn:E; [exact IH|]. simpl. now rewrite E.
Qed.

Lemma lstrip_fixed (s : str) :
  no_leading_space s = true -> PyStr.lstrip s = s.
Proof.
  destruct s as [|c s]; simpl; [reflexivity|].
  intros H. apply negb_true_iff in H. now rewrite H.
Qed.

(** Either only whitespace, or what follows the leading whitespace. *)
Lemma lstrip_app (s r : str) :
  PyStr.lstrip s <> [] -> PyStr.lstrip (s ++ r) = PyStr.lstrip s ++ r.
Proof.
  induction s as [|c s IH]; simpl; [congruence|].
  destruct (PyStr.isspace c); [exact IH|reflexivity].
Qed.

Lemma lstrip_empty_spaces (s : str) :
  PyStr.lstrip s = [] -> forallb PyStr.isspace s = true.
Proof.
  induction s as [|c s IH]; simpl; [reflexivity|].
  destruct (PyStr.isspace c); [exact IH|discriminate].
Qed.

Lemma forallb_rev {A} (f : A -> bool) (l : list A) :
  forallb f (rev l) = forallb f l.
Proof.
  induction l as [|x l IH]; simpl; [reflexivity|].
  rewrite forallb_app, IH. simpl. rewrite andb_true_r. apply andb_comm.
Qed.

Lemma rstrip_spaces (s ws : str) :
  forallb PyStr.isspace ws = true -> PyStr.rstrip (s ++ ws) = PyStr.rstrip s.
Proof.
  intros H. unfold PyStr.rstrip. rewrite rev_app_distr, lstrip_spaces; auto.
  now rewrite forallb_rev.
Qed.

Lemma rstrip_no_trailing (s : str) : no_trailing_space (PyStr.rstrip s) = true.
Proof.
  unfold no_trailing_space, PyStr.rstrip. rewrite rev_involutive.
  apply lstrip_no_leading.
Qed.

Lemma rstrip_fixed (s : str) :
  no_trailing_space s = true -> PyStr.rstrip s = s.
Proof.
  unfold no_trailing_space, PyStr.rstrip. intros H.
  rewrite lstrip_fixed by exact H. apply rev_involutive.
Qed.

Lemma lstrip_snoc (l : str) (c : PyStr.char) :
  PyStr.isspace c = false -> PyStr.lstrip (l ++ [c]) = PyStr.lstrip l ++ [c].
Proof.
  intros Hc. induction l as [|d l IH]; simpl; [now rewrite Hc|].
  destruct (PyStr.isspace d); [exact IH|reflexivity].
Qed.

Lemma rstrip_cons (c : PyStr.char) (s : str) :
  PyStr.isspace c = false -> PyStr.rstrip (c :: s) = c :: PyStr.rstrip s.
Proof.
  intros Hc. unfold PyStr.rstrip. simpl.
  rewrite lstrip_snoc by exact Hc. rewrite rev_app_distr. reflexivity.
Qed.

Lemma rstrip_keeps_no_leading (s : str) :
  no_leading_space s = true -> no_leading_space (PyStr.rstrip s) = true.
Proof.
  destruct s as [|c s]; [reflexivity|]. simpl. intros H.
  apply negb_true_iff in H. rewrite rstrip_cons by exact H. simpl.
  now rewrite H.
Qed.

Lemma strip_no_leading (s : str) : no_leading_space (PyStr.strip s) = true.
Proof. apply rstrip_keeps_no_leading, lstrip_no_leading. Qed.

Lemma strip_no_trailing (s : str) : no_trailing_space (PyStr.strip s) = true.
Proof. apply rstrip_no_trailing. Qed.

Lemma strip_fixed (s : str) :
  no_leading_space s = true -> no_trailing_space s = true -> PyStr.strip s = s.
Proof.
  intros Hl Ht. unfold PyStr.strip. rewrite (lstrip_fixed s Hl).
  now apply rstrip_fixed.
Qed.

Lemma strip_fixed_iff (s : str) :
  PyStr.strip s = s
  <-> no_leading_space s = true /\ no_trailing_space s = true.
Proof.
  split.
  - intros E. rewrite <- E. split; [apply strip_no_leading|apply strip_no_trailing].
  - intros [Hl Ht]. now apply strip_fixed.
Qed.

Lemma strip_idempotent (s : str) : PyStr.strip (PyStr.strip s) = PyStr.strip s.
Proof. apply strip_fixed; [apply strip_no_leading|apply strip_no_trailing]. Qed.

(** Whitespace around a text does not change what [strip] returns. *)
Lemma strip_padding (l s r : str) :
  forallb PyStr.isspace l = true -> forallb PyStr.isspace r = true ->
  PyStr.strip (l ++ s ++ r) = PyStr.strip s.
Proof.
  intros Hl Hr. unfold PyStr.strip. rewrite lstrip_spaces by exact Hl.
  destruct (PyStr.lstrip s) as [|c t] eqn:E.
  - pose proof (lstrip_empty_spaces s E) as Hs.
    rewrite lstrip_all_spaces; [reflexivity|].
    rewrite forallb_app, Hs, Hr. reflexivity.
  - rewrite lstrip_app by congruence. rewrite E.
    now apply rstrip_spaces.
Qed.

(** X10.  Both text tests look at the stripped text only: whitespace in
    front of a text and behind it changes neither [_is_filler_only] nor
    [_has_incomplete_ending], and stripping a text twice is stripping it
    once. *)
Theorem text_tests_ignore_padding (before text after : str)
    (Hbefore : forallb PyStr.isspace before = true)
    (Hafter : forallb PyStr.isspace after = true) :
  _is_filler_only (before ++ text ++ after) = _is_filler_only text
  /\ _has_incomplete_ending (before ++ text ++ after)
     = _has_incomplete_ending text
  /\ PyStr.strip (before ++ text ++ after) = PyStr.strip text
  /\ PyStr.strip (PyStr.strip text) = PyStr.strip text.
Proof.
  pose proof (strip_padding before text after Hbefore Hafter) as E.
  unfold _is_filler_only, _has_incomplete_ending. rewrite E.
  repeat split. apply strip_idempotent.
Qed.

Lemma text_tests_ignore_padding_witness :
  _is_filler_only (u "　 " ++ u "あの" ++ u "  ") = _is_filler_only (u "あの").
Proof.
  refine (proj1 (text_tests_ignore_padding (u "　 ") (u "あの") (u "  ") _ _));
    reflexivity.
Defined.

(** X11.  No text is both filler-only and incomplete-ended: no word of
    [FILLER_WORDS] ends with a string of [INCOMPLETE_ENDINGS].  So the
    filler rule, which is tested first, never keeps a segment from the
    incomplete-ending rule. *)
Theorem filler_and_incomplete_exclusive (text : str) :
  _is_filler_only text && _has_incomplete_ending text = false.
Proof.
  destruct (_is_filler_only text) eqn:E; [|reflexivity].
  simpl. now apply filler_has_complete_ending.
Qed.

(** ** Merged texts of stripped segments *)

Lemma no_leading_app (a b : str) :
  a <> [] -> no_leading_space (a ++ b) = no_leading_space a.
Proof. destruct a; [congruence|reflexivity]. Qed.

Lemma no_trailing_app (a b : str) :
  b <> [] -> no_trailing_space (a ++ b) = no_trailing_space b.
Proof.
  intros Hb. unfold no_trailing_space. rewrite rev_app_distr.
  apply no_leading_app. intros E. apply Hb.
  rewrite <- (rev_involutive b), E. reflexivity.
Qed.

Lemma strip_join_stripped (a b : str) :
  a <> [] -> b <> [] -> PyStr.strip a = a -> PyStr.strip b = b ->
  PyStr.strip (PyStr.fmt_space a b) = PyStr.fmt_space a b.
Proof.
  intros Ha Hb Ea Eb.
  apply strip_fixed_iff in Ea as [La _]. apply strip_fixed_iff in Eb as [_ Tb].
  unfold PyStr.fmt_space. apply strip_fixed.
  - now rewrite no_leading_app.
  - change (a ++ PyStr.space :: b) with (a ++ [PyStr.space] ++ b).
    rewrite app_assoc, no_trailing_app; auto.
Qed.

(** X12.  For two segments whose texts are not empty and carry no
    surrounding whitespace (as every segment [_convert_segments] builds),
    [_merge_segments] joins the texts by exactly one space and changes
    nothing else in them, and here the text agrees with the formula that
    trims both sides first.  [_merge_with_previous] does the same with the
    text of a unit and of a filler segment. *)
Theorem merge_texts_of_stripped (segment1 segment2 : ASRSegment.t)
    (previous_unit : UtteranceUnit.t)
    (Hvalid1 : ASRSegment.valid segment1 = true)
    (Hvalid2 : ASRSegment.valid segment2 = true)
    (Hunit : UtteranceUnit.valid previous_unit = true)
    (Hfull1 : ASRSegment.text segment1 <> [])
    (Hfull2 : ASRSegment.text segment2 <> [])
    (Hfull3 : UtteranceUnit.text previous_unit <> [])
    (Hstripped1 : PyStr.strip (ASRSegment.text segment1)
                  = ASRSegment.text segment1)
    (Hstripped2 : PyStr.strip (ASRSegment.text segment2)
                  = ASRSegment.text segment2)
    (Hstripped3 : PyStr.strip (UtteranceUnit.text previous_unit)
                  = UtteranceUnit.text previous_unit) :
  (exists merged,
      _merge_segments segment1 segment2 = Ok merged
      /\ ASRSegment.text merged
         = ASRSegment.text segment1 ++ u " " ++ ASRSegment.text segment2
      /\ ASRSegment.text merged = mergeSegments_spec_text segment1 segment2)
  /\ (exists absorbed,
        _merge_with_previous previous_unit segment2 = Ok absorbed
        /\ UtteranceUnit.text absorbed
           = UtteranceUnit.text previous_unit ++ u " " ++ ASRSegment.text segment2
        /\ UtteranceUnit.text absorbed
           = absorbFiller_spec_text previous_unit segment2).
Proof.
  split.
  - exists (merged_of segment1 segment2).
    split; [now apply merge_segments_ok|].
    unfold mergeSegments_spec_text. rewrite Hstripped1, Hstripped2. simpl.
    split; [|reflexivity].
    now apply strip_join_stripped.
  - exists (absorbed_of previous_unit segment2).
    split; [now apply merge_with_previous_ok|].
    unfold absorbFiller_spec_text. rewrite Hstripped2, Hstripped3. simpl.
    rewrite strip_join_stripped by assumption. split; reflexivity.
Qed.

Lemma merge_texts_of_stripped_witness :
  exists merged,
    _merge_segments Demo.seg_hareta Demo.seg_dekake = Ok merged
    /\ ASRSegment.text merged
       = mergeSegments_spec_text Demo.seg_hareta Demo.seg_dekake.
Proof.
  destruct (merge_texts_of_stripped Demo.seg_hareta Demo.seg_dekake
              Demo.unit_konnichiwa)
    as [(merged & Hm & _ & Hs) _];
    try reflexivity; try discriminate.
  exists merged. split; [exact Hm|exact Hs].
Defined.

(* ================================================================== *)
(** * Properties of the Whisper service *)

(** The segments built from the kept Whisper segments, numbered from
    [segment_id] on. *)
Lemma convert_loop_spec (ws : list Whisper.segment_dict) (speaker_id : str)
    (segments : list ASRSegment.t) (segment_id : Z) :
  match Whisper.convert_loop ws speaker_id segments segment_id with
  | Ok out =>
    Forall (fun w => whisper_kept w = true -> whisper_times_ok w = true) ws
    /\ exists new,
         out = segments ++ new
         /\ map unnumbered new
            = map (converted_of speaker_id 0) (filter whisper_kept ws)
         /\ map ASRSegment.segment_id new
            = map (fun k => (segment_id + Z.of_nat k)%Z) (seq 0 (length new))
  | Raise e =>
    e = ValidationError
    /\ Exists (fun w => whisper_kept w = true /\ whisper_times_ok w = false) ws
  | OutOfFuel => False
  end.
Proof.
  revert segments segment_id.
  induction ws as [|w ws IH]; intros segments segment_id; simpl.
  - split; [constructor|]. exists []. rewrite app_nil_r. auto.
  - fold (whisper_kept w).
    destruct (whisper_kept w) eqn:Hk; simpl.
    + unfold ASRSegment.new, ASRSegment.valid. simpl.
      fold (whisper_times_ok w).
      destruct (whisper_times_ok w) eqn:Ht; simpl.
      * specialize (IH (segments ++ [converted_of speaker_id segment_id w])
                       (segment_id + 1)%Z).
        unfold converted_of in IH at 1.
        destruct (Whisper.convert_loop ws speaker_id _ _) as [out|e|];
          [|destruct IH as [He Hex]; split; [exact He|now right]|exact IH].
        destruct IH as (Hall & new & Hout & Hmap & Hids).
        split; [constructor; auto|].
        exists (converted_of speaker_id segment_id w :: new).
        split; [rewrite Hout, <- app_assoc; reflexivity|].
        split; [simpl; now rewrite Hmap|].
        simpl. f_equal; [f_equal; lia|].
        rewrite Hids, <- seq_shift, map_map.
        apply map_ext. intros k. lia.
      * split; [reflexivity|]. left. auto.
    + specialize (IH segments segment_id).
      destruct (Whisper.convert_loop ws speaker_id segments segment_id)
        as [out|e|]; [|destruct IH as [He Hex]; split; [exact He|now right]|exact IH].
      destruct IH as (Hall & new & Hout & Hmap & Hids).
      split; [constructor; [congruence|exact Hall]|].
      exists new. auto.
Qed.

Lemma filter_length_le {A} (f : A -> bool) (l : list A) :
  length (filter f l) <= length l.
Proof.
  induction l as [|x l IH]; simpl; [lia|]. destruct (f x); simpl; lia.
Qed.

Lemma convert_segments_result_facts (whisper_segments : list Whisper.segment_dict)
    (audio_metadata : AudioMetadata.t) (segments : list ASRSegment.t)
    (Hreturns : Whisper._convert_segments whisper_segments audio_metadata
                = Ok segments) :
  length segments = length (filter whisper_kept whisper_segments)
  /\ length segments <= length whisper_segments
  /\ map ASRSegment.segment_id segments
     = map Z.of_nat (seq 0 (length segments))
  /\ map ASRSegment.start_time segments
     = map (fun w => Whisper.get (Whisper.start w) PyFloat.zero)
           (filter whisper_kept whisper_segments)
  /\ map ASRSegment.end_time segments
     = map (fun w => Whisper.get (Whisper.end_ w) PyFloat.zero)
           (filter whisper_kept whisper_segments)
  /\ map ASRSegment.text segments
     = map (fun w => PyStr.strip (Whisper.get (Whisper.text w) []))
           (filter whisper_kept whisper_segments)
  /\ Forall (fun s =>
               ASRSegment.valid s = true
               /\ ASRSegment.speaker_id s = Some (u "speaker_0")
               /\ ASRSegment.text s <> []
               /\ PyStr.strip (ASRSegment.text s) = ASRSegment.text s)
            segments.
Proof.
  unfold Whisper._convert_segments in Hreturns.
  pose proof (convert_loop_spec whisper_segments
                (Whisper._get_speaker_id audio_metadata) [] 0) as H.
  rewrite Hreturns in H. destruct H as (Hall & new & Hout & Hmap & Hids).
  simpl in Hout. subst new.
  set (kept := filter whisper_kept whisper_segments) in *.
  assert (Hlen : length segments = length kept).
  { rewrite <- (length_map unnumbered segments), Hmap, length_map.
    reflexivity. }
  assert (Hproj : forall {B} (f : ASRSegment.t -> B),
             (forall s, f (unnumbered s) = f s) ->
             map f segments
             = map (fun w => f (converted_of
                                  (Whisper._get_speaker_id audio_metadata) 0 w))
                   kept).
  { intros B f Hf. rewrite <- (map_map (converted_of _ 0) f), <- Hmap, map_map.
    apply map_ext. intros s. now rewrite Hf. }
  split; [exact Hlen|].
  split; [rewrite Hlen; apply filter_length_le|].
  split; [rewrite Hids; apply map_ext; intros k; lia|].
  split; [apply (Hproj _ ASRSegment.start_time); reflexivity|].
  split; [apply (Hproj _ ASRSegment.end_time); reflexivity|].
  split; [apply (Hproj _ ASRSegment.text); reflexivity|].
  (* per-segment facts, read off the kept Whisper segment of each one *)
  assert (Hkept : Forall (fun w => whisper_kept w = true
                                   /\ whisper_times_ok w = true) kept).
  { apply Forall_forall. intros w Hw. apply filter_In in Hw as [Hin Hk].
    split; [exact Hk|]. rewrite Forall_forall in Hall. auto. }
  apply Forall_forall. intros s Hs.
  assert (Hin : In (unnumbered s)
                   (map (converted_of
                           (Whisper._get_speaker_id audio_metadata) 0) kept)).
  { rewrite <- Hmap. apply in_map_iff. exists s. auto. }
  apply in_map_iff in Hin as (w & Hw & Hwin).
  rewrite Forall_forall in Hkept. destruct (Hkept w Hwin) as [Hk Ht].
  unfold converted_of, unnumbered in Hw. injection Hw as Hst Hen Htx Hsp.
  split; [|split; [|split]].
  - unfold ASRSegment.valid. rewrite <- Hst, <- Hen. exact Ht.
  - now rewrite <- Hsp.
  - rewrite <- Htx. unfold whisper_kept in Hk.
    intros E. rewrite E in Hk. discriminate.
  - rewrite <- Htx. apply strip_idempotent.
Qed.

(** X13.  When [_convert_segments] returns, it returns one segment per
    Whisper segment whose stripped text is not empty, in Whisper's order,
    numbered 0, 1, 2, ... without gaps (blank segments consume no number);
    each carries the start and the end of its source (0.0 for an absent
    key), the stripped text and the speaker "speaker_0"; each passes the
    validators of [ASRSegment], and its text is not empty and has no
    surrounding whitespace. *)
Theorem convert_segments_result (whisper_segments : list Whisper.segment_dict)
    (audio_metadata : AudioMetadata.t) (segments : list ASRSegment.t)
    (Hreturns : Whisper._convert_segments whisper_segments audio_metadata
                = Ok segments) :
  length segments = length (filter whisper_kept whisper_segments)
  /\ length segments <= length whisper_segments
  /\ map ASRSegment.segment_id segments
     = map Z.of_nat (seq 0 (length segments))
  /\ map ASRSegment.start_time segments
     = map (fun w => Whisper.get (Whisper.start w) PyFloat.zero)
           (filter whisper_kept whisper_segments)
  /\ map ASRSegment.end_time segments
     = map (fun w => Whisper.get (Whisper.end_ w) PyFloat.zero)
           (filter whisper_kept whisper_segments)
  /\ map ASRSegment.text segments
     = map (fun w => PyStr.strip (Whisper.get (Whisper.text w) []))
           (filter whisper_kept whisper_segments)
  /\ Forall (fun s =>
               ASRSegment.valid s = true
               /\ ASRSegment.speaker_id s = Some (u "speaker_0")
               /\ ASRSegment.text s <> []
               /\ PyStr.strip (ASRSegment.text s) = ASRSegment.text s)
            segments.
Proof. eapply convert_segments_result_facts; eassumption. Qed.

Lemma convert_segments_result_witness :
  exists segments,
    Whisper._convert_segments WhisperDemo.raw_segments WhisperDemo.metadata
    = Ok segments
    /\ map ASRSegment.segment_id segments
       = map Z.of_nat (seq 0 (length segments))
    /\ map ASRSegment.text segments
       = [u "今日は晴れたので"; u "帰りました"; u "出かけました"].
Proof.
  eexists. split; [vm_compute; reflexivity|].
  match goal with
  | |- context [map ASRSegment.segment_id ?l] =>
    pose proof (convert_segments_result WhisperDemo.raw_segments
                  WhisperDemo.metadata l eq_refl) as (_ & _ & Hid & _)
  end.
  split; [exact Hid|reflexivity].
Defined.

(** X14.  [_convert_segments] raises nothing but the [ValidationError] of
    the [ASRSegment] constructor, and raises it exactly when some Whisper
    segment with a non-blank text has a start or an end that is not
    [>= 0.0]: one such segment aborts the whole conversion, while a blank
    segment is skipped before its times are looked at. *)
Theorem convert_segments_failure (whisper_segments : list Whisper.segment_dict)
    (audio_metadata : AudioMetadata.t) :
  (Whisper._convert_segments whisper_segments audio_metadata
   = Raise ValidationError
   <-> Exists (fun w => whisper_kept w = true /\ whisper_times_ok w = false)
              whisper_segments)
  /\ ((exists segments,
         Whisper._convert_segments whisper_segments audio_metadata
         = Ok segments)
      <-> Forall (fun w => whisper_kept w = true -> whisper_times_ok w = true)
                 whisper_segments)
  /\ Whisper._convert_segments whisper_segments audio_metadata
     <> Raise IndexError
  /\ Whisper._convert_segments whisper_segments audio_metadata <> OutOfFuel.
Proof.
  unfold Whisper._convert_segments.
  pose proof (convert_loop_spec whisper_segments
                (Whisper._get_speaker_id audio_metadata) [] 0) as H.
  assert (Hexcl :
    Forall (fun w => whisper_kept w = true -> whisper_times_ok w = true)
           whisper_segments ->
    Exists (fun w => whisper_kept w = true /\ whisper_times_ok w = false)
           whisper_segments -> False).
  { intros Hf He. rewrite Forall_forall in Hf. apply Exists_exists in He.
    destruct He as (w & Hin & Hk & Ht). specialize (Hf w Hin Hk). congruence. }
  destruct (Whisper.convert_loop whisper_segments _ [] 0) as [out|e|];
    [| |contradiction].
  - destruct H as (Hall & _).
    split; [split; [discriminate|intros He; exfalso; eauto]|].
    split; [split; [auto|eauto]|]. split; discriminate.
  - destruct H as (-> & Hex).
    split; [split; auto|].
    split; [split; [intros (s & Hs); discriminate|
                    intros Hf; exfalso; eauto]|].
    split; discriminate.
Qed.

Lemma convert_segments_failure_witness :
  Whisper._convert_segments WhisperDemo.bad_segments WhisperDemo.metadata
  = Raise ValidationError.
Proof.
  apply (proj1 (convert_segments_failure WhisperDemo.bad_segments
                  WhisperDemo.metadata)).
  right. left. split; reflexivity.
Defined.

(** ** Texts of the returned units *)

Lemma strip_join_clean (a b : str) :
  a <> [] -> b <> [] -> PyStr.strip a = a -> PyStr.strip b = b ->
  PyStr.strip (PyStr.fmt_space a b) <> []
  /\ PyStr.strip (PyStr.strip (PyStr.fmt_space a b))
     = PyStr.strip (PyStr.fmt_space a b).
Proof.
  intros Ha Hb Ea Eb. split; [|apply strip_idempotent].
  rewrite strip_join_stripped by assumption.
  unfold PyStr.fmt_space. destruct a; [congruence|discriminate].
Qed.

Lemma structure_texts_clean_facts (uuid4 : nat -> UUID)
    (asr_result : ASRResult.t) (speaker_id : str)
    (Hvalid : segments_valid (ASRResult.segments asr_result))
    (Hclean : Forall (fun s =>
                        ASRSegment.text s <> []
                        /\ PyStr.strip (ASRSegment.text s) = ASRSegment.text s)
                     (ASRResult.segments asr_result)) :
  exists units,
    structure uuid4 asr_result speaker_id = Ok units
    /\ Forall (fun x =>
                 UtteranceUnit.text x <> []
                 /\ PyStr.strip (UtteranceUnit.text x) = UtteranceUnit.text x)
              units.
Proof.
  destruct (structure_reachable uuid4 asr_result speaker_id Hvalid)
    as (st & Hs & Hr & _).
  exists (utterance_units st). split; [exact Hs|].
  set (segs := sorted_by_start (ASRResult.segments asr_result)) in *.
  assert (Hsv : segments_valid segs) by now apply sorted_by_start_Forall.
  assert (Hss : StronglySorted start_le segs) by now apply sorted_by_start_sorted.
  assert (Hcl : Forall (fun s =>
                          ASRSegment.text s <> []
                          /\ PyStr.strip (ASRSegment.text s) = ASRSegment.text s)
                       segs)
    by now apply sorted_by_start_Forall.
  assert (Hat : forall n s, nth_error segs n = Some s ->
                  ASRSegment.text s <> []
                  /\ PyStr.strip (ASRSegment.text s) = ASRSegment.text s).
  { intros n s Hn. apply nth_error_In in Hn.
    rewrite Forall_forall in Hcl. auto. }
  clear Hs. revert st Hr.
  apply (reachable_ind_cases uuid4 segs speaker_id Hsv Hss
           (fun st => Forall _ (utterance_units st))); simpl.
  - constructor.
  - intros st cur us x _ H Hc _ Hu. rewrite Hu in H.
    apply Forall_app in H as [H1 H2]. inversion H2 as [|? ? [Hx1 Hx2] _]; subst.
    destruct (Hat _ _ Hc) as [Hc1 Hc2].
    apply Forall_app. split; [exact H1|].
    constructor; [|constructor]. simpl. now apply strip_join_clean.
  - intros st cur next _ H Hc Hn _ _ _.
    destruct (Hat _ _ Hc) as [Hc1 Hc2]. destruct (Hat _ _ Hn) as [Hn1 Hn2].
    apply Forall_app. split; [exact H|].
    constructor; [|constructor]. simpl. now apply strip_join_clean.
  - intros st cur _ H Hc _.
    apply Forall_app. split; [exact H|].
    constructor; [|constructor]. simpl. exact (Hat _ _ Hc).
Qed.

(** X15.  When the text of every segment is not empty and has no
    surrounding whitespace, the same holds of the text of every returned
    unit: merging and absorbing join such texts by single spaces and
    leave nothing to strip. *)
Theorem structure_texts_clean (uuid4 : nat -> UUID)
    (asr_result : ASRResult.t) (speaker_id : str)
    (Hvalid : segments_valid (ASRResult.segments asr_result))
    (Hclean : Forall (fun s =>
                        ASRSegment.text s <> []
                        /\ PyStr.strip (ASRSegment.text s) = ASRSegment.text s)
                     (ASRResult.segments asr_result)) :
  exists units,
    structure uuid4 asr_result speaker_id = Ok units
    /\ Forall (fun x =>
                 UtteranceUnit.text x <> []
                 /\ PyStr.strip (UtteranceUnit.text x) = UtteranceUnit.text x)
              units.
Proof. eapply structure_texts_clean_facts; eassumption. Qed.

Lemma structure_texts_clean_witness :
  exists units,
    structure Demo.uuid4 (Demo.asr_result Demo.incomplete_filler_next)
              Demo.speaker = Ok units
    /\ Forall (fun x =>
                 UtteranceUnit.text x <> []
                 /\ PyStr.strip (UtteranceUnit.text x) = UtteranceUnit.text x)
              units.
Proof.
  apply structure_texts_clean.
  - repeat constructor.
  - repeat constructor; discriminate.
Defined.

(** ** [transcribe] *)

Section TranscribeProperties.
Variable path_exists : str -> bool.
Variable model_transcribe : str -> option str -> Whisper.result_dict.
Variable asr_uuid : UUID.
Variable now : Z.

Lemma transcribe_result_facts (model_name : str) (audio_metadata : AudioMetadata.t)
    (language : str) :
  (Whisper.transcribe path_exists model_transcribe asr_uuid now
     model_name audio_metadata language = Whisper.FileNotFoundError
   <-> path_exists (AudioMetadata.audio_path audio_metadata) = false)
  /\ forall asr_result,
       Whisper.transcribe path_exists model_transcribe asr_uuid now
         model_name audio_metadata language = Whisper.Ran (Ok asr_result) ->
       let answer :=
         model_transcribe (AudioMetadata.audio_path audio_metadata)
                          (Whisper.whisper_language language) in
       exists converted,
         Whisper._convert_segments
           (Whisper.get (Whisper.result_segments answer) []) audio_metadata
         = Ok converted
         /\ Permutation converted (ASRResult.segments asr_result)
         /\ StronglySorted start_le (ASRResult.segments asr_result)
         /\ segments_valid (ASRResult.segments asr_result)
         /\ ASRResult.transcript asr_result
            = PyStr.strip (Whisper.get (Whisper.result_text answer) [])
         /\ ASRResult.language asr_result = language
         /\ ASRResult.audio_id asr_result
            = AudioMetadata.audio_id audio_metadata
         /\ ASRResult.engine_name asr_result = Some (u "whisper")
         /\ ASRResult.model_name asr_result = Some model_name.
Proof.
  unfold Whisper.transcribe.
  destruct (path_exists (AudioMetadata.audio_path audio_metadata)) eqn:Hp; simpl.
  - split; [split; discriminate|].
    intros asr_result H.
    destruct (Whisper._convert_segments _ audio_metadata) as [converted| |] eqn:Hc;
      simpl in H; try discriminate.
    injection H as <-. simpl.
    exists converted. split; [reflexivity|].
    pose proof (convert_segments_result_facts _ _ _ Hc) as (_ & _ & _ & _ & _ & _ & Hf).
    assert (Hv : segments_valid converted).
    { eapply Forall_impl; [|exact Hf]. intros s Hs. exact (proj1 Hs). }
    split; [apply sorted_by_start_perm|].
    split; [now apply sorted_by_start_sorted|].
    split; [now apply sorted_by_start_Forall|].
    repeat split.
  - split; [split; reflexivity|]. intros asr_result H. discriminate.
Qed.

(** X16.  [transcribe] raises [FileNotFoundError] exactly when the audio
    file does not exist, whatever the model would answer.  When it
    returns, the segments of its result are the converted segments put in
    non-decreasing order of start (none lost, none added), the transcript
    is Whisper's text stripped, and [language] is the caller's argument as
    given, also when it is blank and Whisper was asked to detect the
    language. *)
Theorem transcribe_result (model_name : str) (audio_metadata : AudioMetadata.t)
    (language : str) :
  (Whisper.transcribe path_exists model_transcribe asr_uuid now
     model_name audio_metadata language = Whisper.FileNotFoundError
   <-> path_exists (AudioMetadata.audio_path audio_metadata) = false)
  /\ forall asr_result,
       Whisper.transcribe path_exists model_transcribe asr_uuid now
         model_name audio_metadata language = Whisper.Ran (Ok asr_result) ->
       let answer :=
         model_transcribe (AudioMetadata.audio_path audio_metadata)
                          (Whisper.whisper_language language) in
       exists converted,
         Whisper._convert_segments
           (Whisper.get (Whisper.result_segments answer) []) audio_metadata
         = Ok converted
         /\ Permutation converted (ASRResult.segments asr_result)
         /\ StronglySorted start_le (ASRResult.segments asr_result)
         /\ segments_valid (ASRResult.segments asr_result)
         /\ ASRResult.transcript asr_result
            = PyStr.strip (Whisper.get (Whisper.result_text answer) [])
         /\ ASRResult.language asr_result = language
         /\ ASRResult.audio_id asr_result
            = AudioMetadata.audio_id audio_metadata
         /\ ASRResult.engine_name asr_result = Some (u "whisper")
         /\ ASRResult.model_name asr_result = Some model_name.
Proof. eapply transcribe_result_facts; eassumption. Qed.

(** X17.  [structure] never fails on what [transcribe] returns: it
    returns a list of units, the sort at its head leaves the segments in
    the order [transcribe] gave them, there are at most as many units as
    Whisper segments, and every unit text is non-empty and without
    surrounding whitespace. *)
Theorem structure_after_transcribe (uuid4 : nat -> UUID)
    (model_name : str) (audio_metadata : AudioMetadata.t)
    (language speaker_id : str) (asr_result : ASRResult.t)
    (Hran : Whisper.transcribe path_exists model_transcribe asr_uuid now
              model_name audio_metadata language
            = Whisper.Ran (Ok asr_result)) :
  exists units,
    structure uuid4 asr_result speaker_id = Ok units
    /\ sorted_by_start (ASRResult.segments asr_result)
       = ASRResult.segments asr_result
    /\ length units
       <= length (Whisper.get
                    (Whisper.result_segments
                       (model_transcribe
                          (AudioMetadata.audio_path audio_metadata)
                          (Whisper.whisper_language language))) [])
    /\ Forall (fun x =>
                 UtteranceUnit.text x <> []
                 /\ PyStr.strip (UtteranceUnit.text x) = UtteranceUnit.text x)
              units.
Proof.
  destruct (transcribe_result_facts model_name audio_metadata language) as [_ H].
  destruct (H asr_result Hran)
    as (converted & Hc & Hperm & Hsorted & Hvalid & _).
  pose proof (convert_segments_result_facts _ _ _ Hc)
    as (_ & Hle & _ & _ & _ & _ & Hf).
  assert (Hclean : Forall (fun s =>
                             ASRSegment.text s <> []
                             /\ PyStr.strip (ASRSegment.text s)
                                = ASRSegment.text s)
                          (ASRResult.segments asr_result)).
  { apply Forall_forall. intros s Hs.
    apply Permutation_sym in Hperm.
    pose proof (Permutation_in _ Hperm Hs) as Hin.
    rewrite Forall_forall in Hf. destruct (Hf s Hin) as (_ & _ & H1 & H2).
    auto. }
  destruct (structure_texts_clean_facts uuid4 asr_result speaker_id Hvalid Hclean)
    as (units & Hs & Ht).
  destruct (structure_returns_bounded_facts uuid4 asr_result speaker_id Hvalid)
    as (units' & Hs' & Hlen & _).
  assert (units' = units) by congruence. subst units'.
  exists units. split; [exact Hs|].
  split; [now apply sorted_by_start_fixed|].
  split; [|exact Ht].
  rewrite <- (Permutation_length Hperm) in Hlen. lia.
Qed.

End TranscribeProperties.

Lemma transcribe_result_witness :
  exists asr_result,
    Whisper.transcribe WhisperDemo.path_exists WhisperDemo.model_transcribe
      9%N 0 (u "base") WhisperDemo.metadata (u "ja")
    = Whisper.Ran (Ok asr_result)
    /\ StronglySorted start_le (ASRResult.segments asr_result)
    /\ map ASRSegment.segment_id (ASRResult.segments asr_result) = [0; 2; 1]%Z.
Proof.
  eexists. split; [vm_compute; reflexivity|].
  match goal with
  | |- StronglySorted _ (ASRResult.segments ?r) /\ _ =>
    destruct (proj2 (transcribe_result WhisperDemo.path_exists
                       WhisperDemo.model_transcribe 9%N 0 (u "base")
                       WhisperDemo.metadata (u "ja")) r eq_refl)
      as (_ & _ & _ & Hs & _)
  end.
  split; [exact Hs|reflexivity].
Defined.

Lemma structure_after_transcribe_witness :
  exists asr_result units,
    Whisper.transcribe WhisperDemo.path_exists WhisperDemo.model_transcribe
      9%N 0 (u "base") WhisperDemo.metadata (u "ja")
    = Whisper.Ran (Ok asr_result)
    /\ structure Demo.uuid4 asr_result Demo.speaker = Ok units
    /\ length units <= 4.
Proof.
  eexists.
  match goal with
  | |- exists units, ?T = Whisper.Ran (Ok ?r) /\ _ =>
    assert (Hran : T = Whisper.Ran (Ok r)) by (vm_compute; reflexivity)
  end.
  destruct (structure_after_transcribe WhisperDemo.path_exists
              WhisperDemo.model_transcribe 9%N 0 Demo.uuid4 (u "base")
              WhisperDemo.metadata (u "ja") Demo.speaker _ Hran)
    as (units & Hs & _ & Hl & _).
  exists units. split; [exact Hran|]. split; [exact Hs|exact Hl].
Defined.

(** X18.  Whisper is asked to detect the language exactly when the
    [language] argument is empty or all whitespace; otherwise it is given
    the argument as it is, not stripped. *)
Theorem whisper_language_blank (language : str) :
  (Whisper.whisper_language language = None <-> PyStr.strip language = [])
  /\ (PyStr.strip language <> [] ->
      Whisper.whisper_language language = Some language).
Proof.
  unfold Whisper.whisper_language.
  destruct (PyStr.strip language) as [|c s] eqn:E; simpl.
  - rewrite andb_false_r. split; [tauto|congruence].
  - destruct language as [|d l]; [discriminate|]. simpl.
    split; [split; discriminate|reflexivity].
Qed.

Lemma whisper_language_blank_witness :
  Whisper.whisper_language (u " ja ") = Some (u " ja ").
Proof.
  apply (proj2 (whisper_language_blank (u " ja "))). discriminate.
Defined.

(* ================================================================== *)
(** * Properties of the controller *)

Section RunProperties.
Variables E Store : Type.
Variable collect : str -> E + AudioMetadata.t.
Variable transcribe : AudioMetadata.t -> str -> E + ASRResult.t.
Variable save : Evidence.t -> Store -> E + Store.
Variable context_uuid : UUID.
Variable unit_uuid : nat -> UUID.
Variable evidence_uuid : UUID.
Variable context_now evidence_now : Z.

Local Abbreviation run :=
  (HSIEController.run E Store collect transcribe save context_uuid
     unit_uuid evidence_uuid context_now evidence_now).

(** X19.  When the metadata service and the ASR service succeed (the ASR
    result holding validated segments), [run] hands exactly one evidence
    to the repository and returns its identifier if saving succeeds, or
    raises the repository's exception.  That evidence holds the ASR result
    unchanged and the units [structure] returns for it; its context names
    the caller's session and speaker, the same speaker as every unit, the
    language of the ASR result and the audio id of the metadata, and has
    an empty unit list of its own; and the identifiers of the evidence,
    of the context and of the units are pairwise different when the
    generated ones are. *)
Theorem run_saves_coherent_evidence
    (audio_path session_id speaker_id language : str) (store : Store)
    (audio_metadata : AudioMetadata.t) (asr_result : ASRResult.t)
    (Hcollect : collect audio_path = inr audio_metadata)
    (Htranscribe : transcribe audio_metadata language = inr asr_result)
    (Hvalid : segments_valid (ASRResult.segments asr_result)) :
  exists units evidence,
    structure unit_uuid asr_result speaker_id = Ok units
    /\ run audio_path session_id speaker_id language store
       = match save evidence store with
         | inl e => HSIEController.Raised e
         | inr store' => HSIEController.Returned evidence_uuid store'
         end
    /\ Evidence.evidence_id evidence = evidence_uuid
    /\ Evidence.asr_result evidence = asr_result
    /\ Evidence.utterance_units evidence = units
    /\ Evidence.version evidence = u "v1"
    /\ AnalysisContext.utterance_units (Evidence.context evidence) = []
    /\ AnalysisContext.session_id (Evidence.context evidence) = session_id
    /\ AnalysisContext.speaker_id (Evidence.context evidence) = speaker_id
    /\ Forall (fun x => UtteranceUnit.speaker_id x
                        = AnalysisContext.speaker_id (Evidence.context evidence))
              units
    /\ AnalysisContext.language (Evidence.context evidence)
       = ASRResult.language asr_result
    /\ AnalysisContext.audio_id (Evidence.context evidence)
       = AudioMetadata.audio_id audio_metadata
    /\ AnalysisContext.context_id (Evidence.context evidence) = context_uuid
    /\ ((forall m n, unit_uuid m = unit_uuid n -> m = n) ->
        (forall n, unit_uuid n <> context_uuid /\ unit_uuid n <> evidence_uuid) ->
        context_uuid <> evidence_uuid ->
        NoDup (Evidence.evidence_id evidence
               :: AnalysisContext.context_id (Evidence.context evidence)
               :: map UtteranceUnit.utterance_id units)).
Proof.
  destruct (structure_inv unit_uuid asr_result speaker_id Hvalid)
    as (st & Hs & Hinv & _).
  destruct (structure_unit_fields_facts unit_uuid asr_result speaker_id Hvalid)
    as (units & Hs' & Hf).
  assert (units = utterance_units st) by congruence. subst units.
  exists (utterance_units st). eexists.
  split; [exact Hs|].
  split.
  { unfold HSIEController.run. rewrite Hcollect, Htranscribe, Hs.
    reflexivity. }
  simpl. do 7 (split; [reflexivity|]).
  split; [eapply Forall_impl; [|exact Hf]; intros x Hx; exact (proj1 Hx)|].
  do 3 (split; [reflexivity|]).
  intros Hinj Hfresh Hce.
  pose proof (inv_ids _ _ _ Hinv) as Hid.
  assert (Hnd : NoDup (map UtteranceUnit.utterance_id (utterance_units st))).
  { rewrite Hid.
    generalize (seq_NoDup (length (utterance_units st)) 0).
    generalize (seq 0 (length (utterance_units st))).
    induction l as [|n l IH]; intros Hn; simpl; [constructor|].
    inversion Hn as [|? ? Hn1 Hn2]; subst. constructor; [|now apply IH].
    intros Hin. apply in_map_iff in Hin as (m & Hm & Hin).
    apply Hinj in Hm. subst. contradiction. }
  assert (Hnot : forall id, (forall n, unit_uuid n <> id) ->
                   ~ In id (map UtteranceUnit.utterance_id (utterance_units st))).
  { intros id Hn Hin. rewrite Hid in Hin.
    apply in_map_iff in Hin as (m & Hm & _). exact (Hn m Hm). }
  constructor.
  - intros [H|H]; [congruence|].
    revert H. apply Hnot. intros n. apply Hfresh.
  - constructor; [|exact Hnd].
    apply Hnot. intros n. apply Hfresh.
Qed.

(** X20.  [run] fails only through its services.  An exception of the
    metadata service or of the ASR service leaves [run] as it is, whatever
    the repository would do; and on an ASR result with validated segments
    [structure] raises nothing, so that [run] either returns the
    identifier of the evidence, after a successful save, or raises the
    exception of the first service that failed. *)
Theorem run_fails_only_through_services
    (audio_path session_id speaker_id language : str) (store : Store) :
  (forall e, collect audio_path = inl e ->
             run audio_path session_id speaker_id language store
             = HSIEController.Raised e)
  /\ (forall audio_metadata e,
        collect audio_path = inr audio_metadata ->
        transcribe audio_metadata language = inl e ->
        run audio_path session_id speaker_id language store
        = HSIEController.Raised e)
  /\ (forall audio_metadata asr_result,
        collect audio_path = inr audio_metadata ->
        transcribe audio_metadata language = inr asr_result ->
        segments_valid (ASRResult.segments asr_result) ->
        (exists e, run audio_path session_id speaker_id language store
                   = HSIEController.Raised e)
        \/ (exists store',
              run audio_path session_id speaker_id language store
              = HSIEController.Returned evidence_uuid store')).
Proof.
  unfold HSIEController.run.
  split; [intros e ->; reflexivity|].
  split; [intros am e -> ->; reflexivity|].
  intros am r -> -> Hvalid.
  destruct (structure_inv unit_uuid r speaker_id Hvalid) as (st & -> & _).
  destruct (save _ store) as [e|store']; [left|right]; eauto.
Qed.

End RunProperties.

Lemma run_saves_coherent_evidence_witness :
  exists units evidence,
    structure Demo.uuid4 (Demo.asr_result Demo.incomplete_filler_next)
              Demo.speaker = Ok units
    /\ HSIEController.run unit (list Evidence.t) ControllerDemo.collect
         ControllerDemo.transcribe ControllerDemo.save
         ControllerDemo.context_uuid Demo.uuid4 ControllerDemo.evidence_uuid
         0 0 (u "/data/sample.wav") (u "session_001") Demo.speaker (u "ja") []
       = HSIEController.Returned ControllerDemo.evidence_uuid [evidence]
    /\ Evidence.utterance_units evidence = units.
Proof.
  destruct (run_saves_coherent_evidence unit (list Evidence.t)
              ControllerDemo.collect ControllerDemo.transcribe
              ControllerDemo.save ControllerDemo.context_uuid Demo.uuid4
              ControllerDemo.evidence_uuid 0 0
              (u "/data/sample.wav") (u "session_001") Demo.speaker (u "ja") []
              WhisperDemo.metadata (Demo.asr_result Demo.incomplete_filler_next))
    as (units & evidence & Hs & Hrun & _ & _ & Hu & _);
    try reflexivity; try (repeat constructor).
  exists units, evidence. split; [exact Hs|]. split; [exact Hrun|exact Hu].
Defined.

Lemma run_fails_only_through_services_witness :
  HSIEController.run unit (list Evidence.t) ControllerDemo.collect_missing
    ControllerDemo.transcribe ControllerDemo.save
    ControllerDemo.context_uuid Demo.uuid4 ControllerDemo.evidence_uuid
    0 0 (u "/data/missing.wav") (u "session_001") Demo.speaker (u "ja") []
  = HSIEController.Raised tt.
Proof.
  apply (proj1 (run_fails_only_through_services unit (list Evidence.t)
                  ControllerDemo.collect_missing ControllerDemo.transcribe
                  ControllerDemo.save ControllerDemo.context_uuid Demo.uuid4
                  ControllerDemo.evidence_uuid 0 0
                  (u "/data/missing.wav") (u "session_001") Demo.speaker
                  (u "ja") [])).
  reflexivity.
Defined.
